(** * RAG service: vector store, embedding client, orchestrator and router

    A shallow embedding of the Python services under [rag-service/app]:
    - [services/vector_store_service.py]  (class [VectorStoreService]),
    - [services/embedding_service.py]     (class [EmbeddingService]),
    - [services/rag_service.py]           (class [RagService]),
    - [models.py] and [routers/rag_router.py] (request validation, endpoints).

    Python exceptions are values of type [exn]; every service method is a
    computation in the monad [M], which threads the state of the ChromaDB
    collection and a log of the calls made to the external collaborators
    (Ollama and ChromaDB).  An exception keeps the state changes made
    before it was raised, as in Python. *)

From Stdlib Require Import ZArith QArith Qround Qabs Qpower Lqa Ascii SpecFloat.
From stdpp Require Import base option list gmap strings pretty fin_maps sorting.

Local Close Scope Q_scope.
Local Open Scope Z_scope.
Local Open Scope nat_scope.

(** ** Data *)

(** Values a ChromaDB metadata dictionary may hold. *)
Inductive scalar :=
| SStr (s : string)
| SInt (z : Z)
| SBool (b : bool).

Global Instance scalar_eq_dec : EqDecision scalar.
Proof. solve_decision. Defined.

(** An embedding vector ([list[float]]); a float is kept as the rational
    number it denotes. *)
Definition vector := list Q.

(** Python exceptions raised by the services and their collaborators. *)
Inductive exn :=
| ValueError (msg : string)
| DuplicateIDError
| InvalidDimensionException
| IndexError
| KeyError (key : string)
| ResponseError (msg : string)
| ConnectionError (msg : string)
| ValidationError (field : string)
| RequestValidationError (field : string)
| HTTPException (status_code : Z) (detail : string).

(** [str(e)]. *)
Definition exn_str (e : exn) : string :=
  match e with
  | ValueError msg | ResponseError msg | ConnectionError msg => msg
  | KeyError key => key
  | ValidationError field | RequestValidationError field => field
  | HTTPException _ detail => detail
  | DuplicateIDError => "Expected IDs to be unique"
  | InvalidDimensionException => "Embedding dimension does not match"
  | IndexError => "list index out of range"
  end.

(** One record of the ChromaDB collection. *)
Record entry := Entry {
  e_id : string;
  e_embedding : vector;
  e_document : string;
  e_metadata : gmap string scalar
}.

(** The collection ["documents"]: its records in insertion order and the
    embedding dimension fixed by the first insertion. *)
Record collection := Collection {
  c_entries : list entry;
  c_dimension : option nat
}.

(** A [where] filter as [VectorStoreService] builds them:
    [{"k": v}] and [{"k": {"$in": vs}}]. *)
Inductive where_clause :=
| WhereEq (key : string) (value : scalar)
| WhereIn (key : string) (values : list scalar).

(** The result dictionary of [collection.query], one inner list per query
    embedding. *)
Record query_result := QueryResult {
  r_ids : list (list string);
  r_documents : list (list string);
  r_metadatas : list (list (gmap string scalar));
  r_distances : list (list Q)
}.

(** Calls that leave the process. *)
Inductive remote_call :=
| OllamaEmbeddings (prompt : string)
| OllamaChat (prompt : string)
| OllamaList
| ChromaAdd (ids : list string)
| ChromaGet (where_filter : option where_clause)
| ChromaDelete (ids : list string)
| ChromaQuery (n_results : Z) (where_filter : option where_clause)
| ChromaCount.

Record world := World {
  chroma : collection;
  calls : list remote_call
}.

(** ** The state-and-exception monad *)

Definition M (A : Type) : Type := world → (exn + A) * world.

Global Instance M_ret : MRet M := λ A a w, (inr a, w).

Global Instance M_bind : MBind M := λ A B f m w,
  match m w with
  | (inr a, w') => f a w'
  | (inl e, w') => (inl e, w')
  end.

Definition raise {A} (e : exn) : M A := λ w, (inl e, w).

(** The outcome of a computation of the process itself. *)
Definition lift {A} (r : exn + A) : M A := λ w, (r, w).

(** [try: m except Exception as e: h e]. *)
Definition try_except {A} (m : M A) (h : exn → M A) : M A := λ w,
  match m w with
  | (inr a, w') => (inr a, w')
  | (inl e, w') => h e w'
  end.

(** A call to Ollama: it is logged, and its outcome may depend on every
    call made so far. *)
Definition remote {A} (c : remote_call) (outcome : list remote_call → exn + A)
    : M A :=
  λ w, (outcome (calls w), World (chroma w) (calls w ++ [c])).

(** A call to the ChromaDB collection: it is logged; the storage layer may
    fail (decided by [fault] from the calls made so far) before the
    operation [op] runs, and a failing call writes nothing. *)
Definition chroma_call {A} (fault : list remote_call → option exn)
    (c : remote_call) (op : collection → exn + A * collection) : M A :=
  λ w,
    let log := calls w ++ [c] in
    match fault (calls w) with
    | Some e => (inl e, World (chroma w) log)
    | None =>
        match op (chroma w) with
        | inl e => (inl e, World (chroma w) log)
        | inr (a, c') => (inr a, World c' log)
        end
    end.

Global Instance exn_ret : MRet (sum exn) := λ A a, inr a.

Global Instance exn_bind : MBind (sum exn) := λ A B f m,
  match m with
  | inr a => f a
  | inl e => inl e
  end.

(** ** ChromaDB collection *)

Module Chroma.

(** Does a record's metadata satisfy the filter? [None] is no filter. *)
Definition where_matches (where_filter : option where_clause)
    (m : gmap string scalar) : bool :=
  match where_filter with
  | None => true
  | Some (WhereEq k v) => bool_decide (m !! k = Some v)
  | Some (WhereIn k vs) =>
      match m !! k with
      | Some v => bool_decide (v ∈ vs)
      | None => false
      end
  end.

Definition has_id (es : list entry) (i : string) : bool :=
  bool_decide (i ∈ e_id <$> es).

(** Records are inserted in order; a record whose id is already present
    is skipped (ChromaDB logs "Add of existing embedding ID" and keeps
    the stored record). *)
Fixpoint insert_new (es new : list entry) : list entry :=
  match new with
  | [] => es
  | e :: new' =>
      if has_id es (e_id e) then insert_new es new'
      else insert_new (es ++ [e]) new'
  end.

Definition zip_entries (ids : list string) (embeddings : list vector)
    (documents : list string) (metadatas : list (gmap string scalar))
    : list entry :=
  zip_with (λ p q, Entry p.1 p.2 q.1 q.2)
    (zip ids embeddings) (zip documents metadatas).

(** The dimension every vector of a batch must have: the collection's
    when it is fixed, the first vector's otherwise. *)
Definition expected_dimension (c : collection) (embeddings : list vector)
    : option nat :=
  match c_dimension c with
  | Some d => Some d
  | None => length <$> head embeddings
  end.

Definition dimensions_ok (d : option nat) (embeddings : list vector) : bool :=
  match d with
  | Some n => forallb (λ v, bool_decide (length v = n)) embeddings
  | None => true
  end.

(** [collection.add(ids, embeddings, documents, metadatas)]: the whole
    batch is validated before anything is written. *)
Definition add (ids : list string) (embeddings : list vector)
    (documents : list string) (metadatas : list (gmap string scalar))
    (c : collection) : exn + collection :=
  if bool_decide (ids = []) then
    inl (ValueError "Expected IDs to be a non-empty list")
  else if negb (bool_decide (length embeddings = length ids
                             ∧ length documents = length ids
                             ∧ length metadatas = length ids)) then
    inl (ValueError "Unequal lengths")
  else if negb (bool_decide (NoDup ids)) then inl DuplicateIDError
  else
    let d := expected_dimension c embeddings in
    if negb (dimensions_ok d embeddings) then inl InvalidDimensionException
    else
      inr (Collection
             (insert_new (c_entries c)
                (zip_entries ids embeddings documents metadatas))
             d).

(** [collection.get(where=where_filter)["ids"]]. *)
Definition get_ids (where_filter : option where_clause) (c : collection)
    : list string :=
  e_id <$> filter (λ e, where_matches where_filter (e_metadata e) = true)
             (c_entries c).

(** [collection.delete(ids=ids)]. *)
Definition delete (ids : list string) (c : collection) : collection :=
  Collection (filter (λ e, e_id e ∉ ids) (c_entries c)) (c_dimension c).

Definition count (c : collection) : nat := length (c_entries c).

(** Nearest first: [e] is placed before the first record that is
    strictly farther from the query. *)
Fixpoint insert_by (d : entry → Q) (e : entry) (l : list entry)
    : list entry :=
  match l with
  | [] => [e]
  | x :: l' =>
      if Qle_bool (d x) (d e) then x :: insert_by d e l' else e :: x :: l'
  end.

Definition rank (d : entry → Q) (l : list entry) : list entry :=
  foldr (insert_by d) [] l.

(** The records answering one query embedding: the [n_results] nearest
    among those that satisfy the filter. *)
Definition nearest (space : vector → vector → Q) (q : vector)
    (n_results : Z) (where_filter : option where_clause) (c : collection)
    : list entry :=
  take (Z.to_nat n_results)
    (rank (λ e, space q (e_embedding e))
       (filter (λ e, where_matches where_filter (e_metadata e) = true)
          (c_entries c))).

(** [collection.query(query_embeddings, n_results, where,
    include=["documents", "metadatas", "distances"])]. *)
Definition query (space : vector → vector → Q)
    (query_embeddings : list vector) (n_results : Z)
    (where_filter : option where_clause) (c : collection)
    : exn + query_result :=
  if bool_decide (n_results ≤ 0)%Z then
    inl (ValueError "Number of requested results cannot be negative, or zero")
  else if negb (dimensions_ok (c_dimension c) query_embeddings) then
    inl InvalidDimensionException
  else
    let hits := (λ q, (q, nearest space q n_results where_filter c))
                  <$> query_embeddings in
    inr (QueryResult
           ((λ h, e_id <$> h.2) <$> hits)
           ((λ h, e_document <$> h.2) <$> hits)
           ((λ h, e_metadata <$> h.2) <$> hits)
           ((λ h, (λ e, space h.1 (e_embedding e)) <$> h.2) <$> hits)).

End Chroma.

(** ** [VectorStoreService]: writing and deleting *)

(** [d.update(upd)], also the effect of [**upd] at the end of a dictionary
    display whose earlier items built [d]: a key of [upd] replaces the
    same key of [d]. *)
Definition dict_update (d upd : gmap string scalar) : gmap string scalar :=
  upd ∪ d.

(** [metadata or {}]. *)
Definition or_empty (metadata : option (gmap string scalar))
    : gmap string scalar :=
  default ∅ metadata.

(** [f"{document_id}_chunk_{i}"]. *)
Definition chunk_id (document_id : string) (i : nat) : string :=
  document_id +:+ "_chunk_" +:+ pretty i.

(** [{"document_id": document_id, "chunk_index": i, **(metadata or {})}]. *)
Definition chunk_metadata (document_id : string) (i : nat)
    (metadata : option (gmap string scalar)) : gmap string scalar :=
  dict_update
    (<["chunk_index" := SInt (Z.of_nat i)]>
       (<["document_id" := SStr document_id]> ∅))
    (or_empty metadata).

(** *** Python sets and [sorted] on metadata values *)

(** The integer a number compares as ([True] is 1 and [False] is 0);
    strings have none. *)
Definition scalar_number (v : scalar) : option Z :=
  match v with
  | SStr _ => None
  | SInt z => Some z
  | SBool b => Some (Z.b2z b)
  end.

Definition scalar_string (v : scalar) : option string :=
  match v with
  | SStr s => Some s
  | _ => None
  end.

(** [a == b]: strings by content, numbers by value ([1 == True]), a
    string never equals a number. *)
Definition py_eq (a b : scalar) : bool :=
  match a, b with
  | SStr s, SStr t => bool_decide (s = t)
  | SStr _, _ | _, SStr _ => false
  | _, _ => bool_decide (scalar_number a = scalar_number b)
  end.

(** [s.add(v)] on a set kept as the list of its elements: an element
    equal to [v] is kept and [v] is dropped. *)
Definition py_set_add (s : list scalar) (v : scalar) : list scalar :=
  if existsb (py_eq v) s then s else s ++ [v].

(** [a <= b] between numbers, by value. *)
Definition number_le (a b : scalar) : Prop :=
  (default 0 (scalar_number a) ≤ default 0 (scalar_number b))%Z.

Global Instance number_le_dec : RelDecision number_le.
Proof. intros a b. unfold number_le. apply _. Defined.

(** [sorted(s)] for a set [s] (no two elements equal): strings are
    ordered by code point, numbers by value; comparing a string with a
    number raises [TypeError], which happens as soon as both kinds are
    present. *)
Definition py_sorted (s : list scalar) : string + list scalar :=
  match mapM scalar_string s, mapM scalar_number s with
  | Some strings, _ => inr (SStr <$> merge_sort String.le strings)
  | None, Some _ => inr (merge_sort number_le s)
  | None, None => inl "'<' not supported between instances of 'str' and 'int'"
  end.

(** The exceptions of a method that also calls [sorted]. *)
Inductive exn_or_TypeError :=
| Raised (e : exn)
| TypeError (msg : string).

Module VectorStoreService.

(** The service object: [space] is the metric of the collection
    (["hnsw:space": "cosine"]), [storage_fault] the failures of the
    persistent client. The collection itself is in the [world]. *)
Record t := {
  space : vector → vector → Q;
  storage_fault : list remote_call → option exn
}.

Definition add_chunks (self : t) (document_id : string)
    (chunks : list string) (embeddings : list vector)
    (metadata : option (gmap string scalar)) : M nat :=
  let ids := chunk_id document_id <$> seq 0 (length chunks) in
  let metadatas :=
    (λ i, chunk_metadata document_id i metadata) <$> seq 0 (length chunks) in
  _ ← chroma_call (storage_fault self) (ChromaAdd ids)
        (λ c, c' ← Chroma.add ids embeddings chunks metadatas c; inr (tt, c'));
  mret (length chunks).

Definition delete_document (self : t) (document_id : string) : M nat :=
  let where_filter := Some (WhereEq "document_id" (SStr document_id)) in
  existing_ids ← chroma_call (storage_fault self) (ChromaGet where_filter)
                   (λ c, inr (Chroma.get_ids where_filter c, c));
  let count := length existing_ids in
  if bool_decide (0 < count) then
    _ ← chroma_call (storage_fault self) (ChromaDelete existing_ids)
          (λ c, inr (tt, Chroma.delete existing_ids c));
    mret count
  else mret count.

(** The [where_filter] of [query]: none when [document_ids] is [None]
    or empty, equality for one id, ["$in"] for several. *)
Definition where_filter (document_ids : option (list string))
    : option where_clause :=
  match document_ids with
  | None | Some [] => None
  | Some [d] => Some (WhereEq "document_id" (SStr d))
  | Some ds => Some (WhereIn "document_id" (SStr <$> ds))
  end.

Definition query (self : t) (query_embedding : vector) (top_k : Z)
    (document_ids : option (list string)) : M query_result :=
  let where_filter := where_filter document_ids in
  chroma_call (storage_fault self) (ChromaQuery top_k where_filter)
    (λ c, r ← Chroma.query (space self) [query_embedding] top_k
                where_filter c;
          inr (r, c)).

(** Never raises: any failure of [collection.count()] is [False]. *)
Definition check_connection (self : t) : M bool :=
  try_except
    (_ ← chroma_call (storage_fault self) ChromaCount
           (λ c, inr (Chroma.count c, c));
     mret true)
    (λ _, mret false).

(** The set comprehension of [get_document_ids]:
    [{m["document_id"] for m in metadatas if m}], the set built so far
    being [doc_ids]. *)
Fixpoint document_id_set (metadatas : list (gmap string scalar))
    (doc_ids : list scalar) : exn + list scalar :=
  match metadatas with
  | [] => inr doc_ids
  | m :: metadatas' =>
      if bool_decide (m = ∅) then document_id_set metadatas' doc_ids
      else
        match m !! "document_id" with
        | Some v => document_id_set metadatas' (py_set_add doc_ids v)
        | None => inl (KeyError "document_id")
        end
  end.

(** [get_document_ids]: the exceptions are those of the collection and of
    the comprehension, or the [TypeError] of [sorted]. *)
Definition get_document_ids (self : t)
    : world → (exn_or_TypeError + list scalar) * world :=
  λ w,
    match chroma_call (storage_fault self) (ChromaGet None)
            (λ c, inr (e_metadata <$> c_entries c, c)) w with
    | (inl e, w') => (inl (Raised e), w')
    | (inr all_metadata, w') =>
        match document_id_set all_metadata [] with
        | inl e => (inl (Raised e), w')
        | inr doc_ids =>
            match py_sorted doc_ids with
            | inl msg => (inl (TypeError msg), w')
            | inr ids => (inr ids, w')
            end
        end
    end.

End VectorStoreService.

(** The chunks the index attributes to a document: the records whose
    metadata [document_id] is that id (the filter of [delete_document]). *)
Definition chunks_of (document_id : string) (c : collection) : list entry :=
  filter (λ e, e_metadata e !! "document_id" = Some (SStr document_id))
    (c_entries c).

Definition empty_collection : collection := Collection [] None.
Definition empty_world : world := World empty_collection [].

(** ** [EmbeddingService] *)

(** The Ollama client: what the server answers to [embeddings], [chat] and
    [list], given the calls made so far, the model name and the prompt. *)
Record OllamaClient := {
  client_embeddings : list remote_call → string → string → exn + vector;
  client_chat : list remote_call → string → string → exn + string;
  client_list : list remote_call → exn + list string
}.

(** The text splitter configured in [EmbeddingService.__init__]
    ([RecursiveCharacterTextSplitter], a library function of the text). *)
Record TextSplitter := {
  splitter_split_text : string → exn + list string
}.

Module EmbeddingService.

Record t := {
  _client : OllamaClient;
  _model : string;
  _splitter : TextSplitter
}.

Definition split_text (self : t) (text : string) : M (list string) :=
  lift (splitter_split_text (_splitter self) text).

Definition generate_embedding (self : t) (text : string) : M vector :=
  remote (OllamaEmbeddings text)
    (λ h, client_embeddings (_client self) h (_model self) text).

(** The [for] loop of [generate_embeddings]; [embeddings] is the list
    built so far. *)
Fixpoint generate_embeddings_loop (self : t) (embeddings : list vector)
    (texts : list string) : M (list vector) :=
  match texts with
  | [] => mret embeddings
  | text :: texts' =>
      embedding ← generate_embedding self text;
      generate_embeddings_loop self (embeddings ++ [embedding]) texts'
  end.

Definition generate_embeddings (self : t) (texts : list string)
    : M (list vector) :=
  generate_embeddings_loop self [] texts.

Definition check_connection (self : t) : M (bool * list string) :=
  try_except
    (model_names ← remote OllamaList (client_list (_client self));
     mret (true, model_names))
    (λ _, mret (false, [])).

End EmbeddingService.

(** ** [models.py] *)

Module models.

Record SourceChunk := {
  document_id : string;
  chunk_text : string;
  relevance_score : Q;
  metadata : option (gmap string scalar)
}.

Record QueryResponse := {
  answer : string;
  sources : list SourceChunk;
  document_ids_searched : list string
}.

Record QueryRequest := {
  question : string;
  document_ids : option (list string);
  top_k : Z
}.

Record HealthResponse := {
  status : string;
  ollama_connected : bool;
  chromadb_connected : bool;
  models_available : list string
}.

(** [SourceChunk(document_id=..., ...)]: [document_id: str] rejects a
    value that is not a string. *)
Definition SourceChunk_new (doc : scalar) (text : string) (score : Q)
    (md : gmap string scalar) : exn + SourceChunk :=
  match doc with
  | SStr d => inr {| document_id := d; chunk_text := text;
                     relevance_score := score; metadata := Some md |}
  | _ => inl (ValidationError "document_id")
  end.

(** [IndexRequest] and [IndexResponse] share field names with the records
    above and live in modules of their own. *)
Module IndexRequest.
Record t := {
  document_id : string;
  content : string;
  filename : string;
  metadata : option (gmap string scalar)
}.
End IndexRequest.

Module IndexResponse.
Record t := {
  document_id : string;
  chunks_indexed : nat;
  message : string
}.
End IndexResponse.

(** The JSON body of an index request, before validation. *)
Record index_body := {
  body_document_id : option string;
  body_content : option string;
  body_filename : option string;
  body_metadata : option (gmap string scalar)
}.

(** Validation of [IndexRequest]: [document_id], [content] and [filename]
    are required, [content] has [min_length=1]. *)
Definition IndexRequest_validate (b : index_body) : exn + IndexRequest.t :=
  match body_document_id b, body_content b, body_filename b with
  | None, _, _ => inl (RequestValidationError "document_id")
  | _, None, _ => inl (RequestValidationError "content")
  | _, _, None => inl (RequestValidationError "filename")
  | Some d, Some c, Some f =>
      if bool_decide (String.length c < 1) then
        inl (RequestValidationError "content")
      else
        inr {| IndexRequest.document_id := d; IndexRequest.content := c;
               IndexRequest.filename := f;
               IndexRequest.metadata := body_metadata b |}
  end.

(** The JSON body of a query request, before validation: a field is
    absent ([None]) or present with a value of its type. *)
Record query_body := {
  body_question : option string;
  body_document_ids : option (list string);
  body_top_k : option Z
}.

(** Validation of [QueryRequest]: [question] is required with
    [min_length=1]; [top_k] defaults to 3 and has [ge=1, le=10]. *)
Definition QueryRequest_validate (b : query_body) : exn + QueryRequest :=
  match body_question b with
  | None => inl (RequestValidationError "question")
  | Some q =>
      if bool_decide (String.length q < 1) then
        inl (RequestValidationError "question")
      else
        let k := default 3%Z (body_top_k b) in
        if bool_decide (1 ≤ k ∧ k ≤ 10)%Z then
          inr {| question := q; document_ids := body_document_ids b;
                 top_k := k |}
        else inl (RequestValidationError "top_k")
  end.

Module DeleteResponse.
Record t := {
  document_id : string;
  chunks_deleted : nat;
  message : string
}.
End DeleteResponse.

(** The JSON body of a delete request, before validation. *)
Record delete_body := {
  delete_document_id : option string
}.

(** Validation of [DeleteRequest]: its only field, [document_id], is
    required. *)
Definition DeleteRequest_validate (b : delete_body) : exn + string :=
  match delete_document_id b with
  | None => inl (RequestValidationError "document_id")
  | Some d => inr d
  end.

(** Validation of a response against [response_model=list[str]]. *)
Definition list_str_validate (l : list scalar) : exn + list string :=
  match mapM scalar_string l with
  | Some ids => inr ids
  | None => inl (ValidationError "response")
  end.

End models.

(** ** [RagService] *)

(** *** Python floats

    A Python [float] is an IEEE 754 binary64 number.  A finite one is kept
    here as the rational number it denotes, in lowest terms, and every
    arithmetic operation is the exact operation followed by the rounding
    of the format, [float_round]: to the nearest number with a 53-bit
    mantissa, a tie going to the even mantissa, with the subnormal
    numbers below [2^-1022].  The two zeros are not told apart;
    infinities and NaN are not values of the model (a distance is finite,
    and the operations below do not overflow on finite numbers). *)

(** The nearest integer, a tie going to the even one. *)
Definition round_half_even (x : Q) : Z :=
  let f := Qfloor x in
  match (x - inject_Z f ?= 1 # 2)%Q with
  | Lt => f
  | Gt => (f + 1)%Z
  | Eq => if Z.even f then f else (f + 1)%Z
  end.

(** The exponent [e] with [2^e <= |x| < 2^(e+1)], for [x] other than 0. *)
Definition binade (x : Q) : Z :=
  let e := (Z.log2 (Z.abs (Qnum x)) - Z.log2 (Zpos (Qden x)))%Z in
  if Qle_bool (2 ^ e) (Qabs x) then e else (e - 1)%Z.

(** The distance between two neighbouring binary64 numbers around [x]:
    [2^(e-52)] in the binade [e] of [x], and [2^-1074] among the
    subnormal numbers. *)
Definition float_ulp (x : Q) : Q := (2 ^ (Z.max (binade x) (-1022) - 52))%Q.

(** The magnitude of the binary64 number nearest to [x]: the mantissa
    [|x| / ulp] rounded to an integer, a tie going to the even one. *)
Definition float_magnitude (x : Q) : Q :=
  (inject_Z (round_half_even (Qabs x / float_ulp x)) * float_ulp x)%Q.

Definition nearest_double (x : Q) : Q :=
  if Qle_bool 0 x then float_magnitude x else (- float_magnitude x)%Q.

(** Rounding to binary64, on fractions in lowest terms. *)
Definition float_round (x : Q) : Q := Qred (nearest_double (Qred x)).

(** [round(x, ndigits)] on a float, as CPython computes it for the
    [ndigits] used here: the exact value of [x] is rounded to [ndigits]
    decimal places, a tie going to the even digit (the decimal string of
    [float.__round__]), and the decimal is converted back to the nearest
    float. *)
Definition py_round (x : Q) (ndigits : nat) : Q :=
  float_round
    (inject_Z (round_half_even (x * inject_Z (10 ^ Z.of_nat ndigits)))
     / inject_Z (10 ^ Z.of_nat ndigits))%Q.

(** The same operations on the binary64 numbers of the Standard Library's
    specification of IEEE 754 arithmetic ([SpecFloat], precision 53,
    [emax] 1024), against which [float_round] is checked below. *)
Definition SF2Q (f : spec_float) : Q :=
  match f with
  | S754_finite s m e =>
      ((if s then -1 else 1) * inject_Z (Zpos m) * 2 ^ e)%Q
  | _ => 0%Q
  end.

(** The float of an integer literal. *)
Definition binary64 (n : Z) : spec_float := binary_normalize 53 1024 n 0 false.

(** [1.0 - (distance / 2.0)]. *)
Definition binary64_relevance (distance : spec_float) : spec_float :=
  SFsub 53 1024 (binary64 1) (SFdiv 53 1024 distance (binary64 2)).

(** [round(x, ndigits)]: the decimal [n / 10^ndigits] nearest to [x] is
    read back as a float, which is the correctly rounded quotient of the
    two integers. *)
Definition binary64_round (x : spec_float) (ndigits : nat) : spec_float :=
  SFdiv 53 1024
    (binary64 (round_half_even (SF2Q x * inject_Z (10 ^ Z.of_nat ndigits))))
    (binary64 (10 ^ Z.of_nat ndigits)).

(** [l[i]] and [d[k]]. *)
Definition getitem {A} (l : list A) (i : nat) : exn + A :=
  match l !! i with
  | Some x => inr x
  | None => inl IndexError
  end.

Definition dict_getitem (d : gmap string scalar) (k : string) : exn + scalar :=
  match d !! k with
  | Some v => inr v
  | None => inl (KeyError k)
  end.

Definition newline : string := String (Ascii.ascii_of_nat 10) EmptyString.

(** [RAG_PROMPT_TEMPLATE.format(context=context, question=question)]. *)
Definition RAG_PROMPT_TEMPLATE_format (context question : string) : string :=
  "You are a helpful assistant that answers questions based on the provided context."
  +:+ newline +:+
  "Use ONLY the information in the context below to answer the question."
  +:+ newline +:+
  "If the context does not contain enough information to answer, say so clearly."
  +:+ newline +:+
  "Do not make up information."
  +:+ newline +:+ newline +:+
  "Context:" +:+ newline +:+ context +:+ newline +:+ newline +:+
  "Question: " +:+ question +:+ newline +:+ newline +:+
  "Answer:".

Global Arguments RAG_PROMPT_TEMPLATE_format : simpl never.

Definition NO_DOCUMENTS_ANSWER : string :=
  "No relevant documents found to answer this question. Please index some documents first.".

Definition CONTEXT_SEPARATOR : string :=
  newline +:+ newline +:+ "---" +:+ newline +:+ newline.

Module RagService.

Record t := {
  _embedding_service : EmbeddingService.t;
  _vector_store : VectorStoreService.t;
  _llm_client : OllamaClient;
  _llm_model : string
}.

Definition index_document (self : t) (document_id : string)
    (content : string) (metadata : option (gmap string scalar)) : M nat :=
  _ ← VectorStoreService.delete_document (_vector_store self) document_id;
  chunks ← EmbeddingService.split_text (_embedding_service self) content;
  if bool_decide (chunks = []) then mret 0
  else
    embeddings ← EmbeddingService.generate_embeddings
                   (_embedding_service self) chunks;
    count ← VectorStoreService.add_chunks (_vector_store self)
              document_id chunks embeddings metadata;
    mret count.

(** What the loop of [query] accumulates: [sources], [context_parts]
    and [searched_doc_ids]. *)
Definition accumulators : Type :=
  list models.SourceChunk * list string * gset string.

(** [relevance = 1.0 - (distance / 2.0)]: the division is rounded to a
    float, then the subtraction is. *)
Definition relevance (distance : Q) : Q :=
  float_round (1 - float_round (distance / 2))%Q.

(** The body of [for i, chunk_text in enumerate(results["documents"][0])],
    from index [i] on. *)
Fixpoint collect (results : query_result) (i : nat)
    (documents : list string) (acc : accumulators) : exn + accumulators :=
  match documents with
  | [] => inr acc
  | chunk_text :: documents' =>
      metadatas0 ← getitem (r_metadatas results) 0;
      metadata ← getitem metadatas0 i;
      distances0 ← getitem (r_distances results) 0;
      distance ← getitem distances0 i;
      doc ← dict_getitem metadata "document_id";
      source ← models.SourceChunk_new doc chunk_text
                 (py_round (relevance distance) 4) metadata;
      let '(sources, context_parts, searched_doc_ids) := acc in
      collect results (S i) documents'
        (sources ++ [source], context_parts ++ [chunk_text],
         {[models.document_id source]} ∪ searched_doc_ids)
  end.

(** [results["ids"] and results["ids"][0]]. *)
Definition has_results (results : query_result) : bool :=
  match r_ids results with
  | [] => false
  | ids0 :: _ => negb (bool_decide (ids0 = []))
  end.

Definition query (self : t) (question : string)
    (document_ids : option (list string)) (top_k : Z)
    : M models.QueryResponse :=
  query_embedding ← EmbeddingService.generate_embedding
                      (_embedding_service self) question;
  results ← VectorStoreService.query (_vector_store self)
              query_embedding top_k document_ids;
  '(sources, context_parts, searched_doc_ids) ←
    lift (if has_results results then
            documents0 ← getitem (r_documents results) 0;
            collect results 0 documents0 ([], [], ∅)
          else inr ([], [], ∅));
  if bool_decide (context_parts = []) then
    mret {| models.answer := NO_DOCUMENTS_ANSWER;
            models.sources := [];
            models.document_ids_searched := elements searched_doc_ids |}
  else
    let context := String.concat CONTEXT_SEPARATOR context_parts in
    let prompt := RAG_PROMPT_TEMPLATE_format context question in
    answer ← remote (OllamaChat prompt)
               (λ h, client_chat (_llm_client self) h (_llm_model self) prompt);
    mret {| models.answer := answer;
            models.sources := sources;
            models.document_ids_searched := elements searched_doc_ids |}.

Definition delete_document (self : t) (document_id : string) : M nat :=
  VectorStoreService.delete_document (_vector_store self) document_id.

End RagService.

(** ** [routers/rag_router.py] *)

Module rag_router.

(** The module-level service references, [None] until [init_router]. *)
Record globals := {
  _rag_service : option RagService.t;
  _embedding_service : option EmbeddingService.t;
  _vector_store : option VectorStoreService.t
}.

Definition uninitialized : globals :=
  {| _rag_service := None; _embedding_service := None;
     _vector_store := None |}.

Definition init_router (rag_service : RagService.t)
    (embedding_service : EmbeddingService.t)
    (vector_store : VectorStoreService.t) (g : globals) : globals :=
  {| _rag_service := Some rag_service;
     _embedding_service := Some embedding_service;
     _vector_store := Some vector_store |}.

Definition _get_rag_service (g : globals) : M RagService.t :=
  match _rag_service g with
  | None => raise (HTTPException 503 "RAG service not initialized")
  | Some s => mret s
  end.

(** [POST /index]: the body is validated against [IndexRequest] before
    the handler runs; the metadata handed to the service is
    [{"filename": request.filename, **(request.metadata or {})}]. *)
Definition index_document (g : globals) (body : models.index_body)
    : M models.IndexResponse.t :=
  request ← lift (models.IndexRequest_validate body);
  service ← _get_rag_service g;
  try_except
    (chunks_indexed ←
       RagService.index_document service
         (models.IndexRequest.document_id request)
         (models.IndexRequest.content request)
         (Some (dict_update
                  {[ "filename" := SStr (models.IndexRequest.filename request) ]}
                  (or_empty (models.IndexRequest.metadata request))));
     mret {| models.IndexResponse.document_id :=
               models.IndexRequest.document_id request;
             models.IndexResponse.chunks_indexed := chunks_indexed;
             models.IndexResponse.message :=
               "Successfully indexed " +:+ pretty chunks_indexed +:+ " chunks" |})
    (λ e, raise (HTTPException 500 ("Indexing failed: " +:+ exn_str e))).

(** [POST /query]: the body is validated against [QueryRequest] before
    the handler runs; the handler turns any exception of the service
    into a 500. *)
Definition query_documents (g : globals) (body : models.query_body)
    : M models.QueryResponse :=
  request ← lift (models.QueryRequest_validate body);
  service ← _get_rag_service g;
  try_except
    (RagService.query service (models.question request)
       (models.document_ids request) (models.top_k request))
    (λ e, raise (HTTPException 500 ("Query failed: " +:+ exn_str e))).

(** [GET /health]. *)
Definition health_check (g : globals) : M models.HealthResponse :=
  match _embedding_service g, _vector_store g with
  | Some embedding_service, Some vector_store =>
      '(ollama_ok, models) ←
        EmbeddingService.check_connection embedding_service;
      chroma_ok ← VectorStoreService.check_connection vector_store;
      let status := if ollama_ok && chroma_ok then "healthy" else "degraded" in
      mret {| models.status := status;
              models.ollama_connected := ollama_ok;
              models.chromadb_connected := chroma_ok;
              models.models_available := models |}
  | _, _ =>
      mret {| models.status := "unhealthy";
              models.ollama_connected := false;
              models.chromadb_connected := false;
              models.models_available := [] |}
  end.

(** [POST /delete]. *)
Definition delete_document (g : globals) (body : models.delete_body)
    : M models.DeleteResponse.t :=
  document_id ← lift (models.DeleteRequest_validate body);
  service ← _get_rag_service g;
  try_except
    (chunks_deleted ← RagService.delete_document service document_id;
     mret {| models.DeleteResponse.document_id := document_id;
             models.DeleteResponse.chunks_deleted := chunks_deleted;
             models.DeleteResponse.message :=
               if bool_decide (0 < chunks_deleted)
               then "Deleted " +:+ pretty chunks_deleted +:+ " chunks"
               else "No chunks found for this document" |})
    (λ e, raise (HTTPException 500 ("Delete failed: " +:+ exn_str e))).

(** [GET /documents]: the list the handler returns is validated against
    [list[str]] after the handler has returned. *)
Definition list_documents (g : globals) : M (list string) :=
  match _vector_store g with
  | None => raise (HTTPException 503 "Service not initialized")
  | Some vector_store =>
      ids ← (λ w,
               match VectorStoreService.get_document_ids vector_store w with
               | (inr ids, w') => (inr ids, w')
               | (inl (Raised e), w') =>
                   (inl (HTTPException 500
                           ("Failed to list documents: " +:+ exn_str e)), w')
               | (inl (TypeError msg), w') =>
                   (inl (HTTPException 500
                           ("Failed to list documents: " +:+ msg)), w')
               end);
      lift (models.list_str_validate ids)
  end.

End rag_router.

(** ** Specification vocabulary *)

(** The answer of the embedding server to the [i]-th text [t] of a batch
    [texts] started in world [w]: the calls made so far are those of [w]
    followed by one call per earlier text. *)
Definition answer_at (self : EmbeddingService.t) (w : world)
    (texts : list string) (i : nat) (t : string) : exn + vector :=
  client_embeddings (EmbeddingService._client self)
    (calls w ++ (OllamaEmbeddings <$> take i texts))
    (EmbeddingService._model self) t.

(** A source [s] reports the record [e] found for the query vector [q]. *)
Definition reports (space : vector → vector → Q) (q : vector) (e : entry)
    (s : models.SourceChunk) : Prop :=
  e_metadata e !! "document_id" = Some (SStr (models.document_id s))
  ∧ models.chunk_text s = e_document e
  ∧ models.relevance_score s
    = py_round (RagService.relevance (space q (e_embedding e))) 4
  ∧ models.metadata s = Some (e_metadata e).

(** Does the character [c] occur in [s]? *)
Fixpoint has_char (c : Ascii.ascii) (s : string) : bool :=
  match s with
  | EmptyString => false
  | String a s' => bool_decide (a = c) || has_char c s'
  end.

(** A collection whose records were all written by [add_chunks] with
    metadata that kept the derived [document_id]: the id of a record names
    the document its metadata names. *)
Definition consistent (c : collection) : Prop :=
  ∀ e, e ∈ c_entries c →
    ∃ d i, e_id e = chunk_id d i
           ∧ e_metadata e !! "document_id" = Some (SStr d).

(** A collection in which every record names its document by a string
    (what [add_chunks] writes unless the caller's metadata replaces the
    [document_id] by a number). *)
Definition string_document_ids (c : collection) : Prop :=
  ∀ e, e ∈ c_entries c →
    ∃ d, e_metadata e !! "document_id" = Some (SStr d).

(** The ways an endpoint that needs the RAG service fails, from world [w]
    to world [w']: the body does not validate (422) or the service is not
    initialized (503), both before anything is done, or the service
    raised and the handler answers 500. *)
Definition endpoint_failure (g : rag_router.globals) (e : exn)
    (w w' : world) : Prop :=
  (∃ field, e = RequestValidationError field ∧ w' = w)
  ∨ (e = HTTPException 503 "RAG service not initialized" ∧ w' = w
     ∧ rag_router._rag_service g = None)
  ∨ (∃ detail, e = HTTPException 500 detail
               ∧ is_Some (rag_router._rag_service g)).

(** The calls a computation added to the log of [w]. *)
Definition new_calls (w w' : world) : list remote_call :=
  drop (length (calls w)) (calls w').

(** ** Test doubles

    Collaborators used to run the services on concrete inputs: an Ollama
    server that always answers, a splitter that behaves as the configured
    one does on a text shorter than the chunk size without surrounding
    white space (one chunk, none for the empty text), a metric on the
    first component, and a storage layer that never fails. *)

Module Demo.

Definition client : OllamaClient := {|
  client_embeddings := λ _ _ prompt,
    inr [inject_Z (Z.of_nat (String.length prompt)); 1%Q];
  client_chat := λ _ _ _, inr "An answer.";
  client_list := λ _, inr ["nomic-embed-text"; "llama3.2:1b"]
|}.

(** An Ollama server that cannot be reached. *)
Definition client_down : OllamaClient := {|
  client_embeddings := λ _ _ _, inl (ConnectionError "connection refused");
  client_chat := λ _ _ _, inl (ConnectionError "connection refused");
  client_list := λ _, inl (ConnectionError "connection refused")
|}.

(** A server that fails on the prompt ["bad"] only. *)
Definition client_flaky : OllamaClient := {|
  client_embeddings := λ _ _ prompt,
    if bool_decide (prompt = "bad") then inl (ResponseError "model error")
    else inr [inject_Z (Z.of_nat (String.length prompt)); 1%Q];
  client_chat := λ _ _ _, inr "An answer.";
  client_list := λ _, inr ["nomic-embed-text"]
|}.

Definition splitter : TextSplitter := {|
  splitter_split_text := λ text,
    inr (if bool_decide (text = "") then [] else [text])
|}.

Definition embedding_service (c : OllamaClient) : EmbeddingService.t := {|
  EmbeddingService._client := c;
  EmbeddingService._model := "nomic-embed-text";
  EmbeddingService._splitter := splitter
|}.

Definition space (a b : vector) : Q :=
  (Qabs (hd 0 a - hd 0 b) / 10)%Q.

Definition vector_store : VectorStoreService.t := {|
  VectorStoreService.space := space;
  VectorStoreService.storage_fault := λ _, None
|}.

(** A vector store whose storage is out of order. *)
Definition vector_store_down : VectorStoreService.t := {|
  VectorStoreService.space := space;
  VectorStoreService.storage_fault := λ _, Some (ValueError "disk I/O error")
|}.

Definition rag_service (c : OllamaClient) : RagService.t := {|
  RagService._embedding_service := embedding_service c;
  RagService._vector_store := vector_store;
  RagService._llm_client := c;
  RagService._llm_model := "llama3.2:1b"
|}.

Definition router (c : OllamaClient) : rag_router.globals :=
  rag_router.init_router (rag_service c) (embedding_service c) vector_store
    rag_router.uninitialized.

(** The world after [index_document(document_id, content, metadata)]. *)
Definition indexed (document_id content : string)
    (metadata : option (gmap string scalar)) (w : world) : world :=
  (RagService.index_document (rag_service client) document_id content
     metadata w).2.

End Demo.

(** * Properties *)

(** Unfold the monadic plumbing. *)
Ltac run :=
  unfold mbind, M_bind, mret, M_ret, raise, lift, remote, chroma_call,
    try_except, exn_bind, exn_ret in *; simpl in *.

(** ** Metadata written by [add_chunks] *)

Lemma chunk_metadata_caller_wins document_id i (m : gmap string scalar) k v :
  m !! k = Some v →
  chunk_metadata document_id i (Some m) !! k = Some v.
Proof.
  intros Hk. unfold chunk_metadata, dict_update, or_empty. simpl.
  by apply lookup_union_Some_l.
Qed.

Lemma chunk_metadata_derived document_id i metadata :
  or_empty metadata !! "document_id" = None →
  chunk_metadata document_id i metadata !! "document_id"
  = Some (SStr document_id).
Proof.
  intros Hk. unfold chunk_metadata, dict_update.
  rewrite lookup_union_r by done.
  by rewrite lookup_insert_ne, lookup_insert_eq.
Qed.

(** C1.  [add_chunks("doc", ["text"], [[1.0]], {"document_id": "other",
    "chunk_index": 7})] stores the caller's values under both keys: the
    stored metadata is the caller's dictionary, not the derived
    [{"document_id": "doc", "chunk_index": 0}]. *)
Lemma add_chunks_caller_keys_override :
  let caller : gmap string scalar :=
    {[ "document_id" := SStr "other"; "chunk_index" := SInt 7 ]} in
  ∃ w',
    VectorStoreService.add_chunks Demo.vector_store "doc" ["text"] [[1%Q]]
      (Some caller) empty_world = (inr 1, w')
    ∧ e_id <$> c_entries (chroma w') = ["doc_chunk_0"]
    ∧ e_metadata <$> c_entries (chroma w') = [caller]
    ∧ caller !! "document_id" ≠ Some (SStr "doc")
    ∧ caller !! "chunk_index" ≠ Some (SInt 0).
Proof.
  eexists. split; [vm_compute; reflexivity|].
  repeat split; vm_compute; congruence.
Qed.

(** The same through [POST /index]: a body whose metadata names another
    document is a valid [IndexRequest], and the record of document
    ["doc"] is stored as a chunk of ["other"]. *)
Lemma index_endpoint_caller_document_id :
  let body := {| models.body_document_id := Some "doc";
                 models.body_content := Some "text";
                 models.body_filename := Some "f.txt";
                 models.body_metadata :=
                   Some {[ "document_id" := SStr "other" ]} |} in
  ∃ r w',
    rag_router.index_document (Demo.router Demo.client) body empty_world
    = (inr r, w')
    ∧ models.IndexResponse.chunks_indexed r = 1
    ∧ e_id <$> c_entries (chroma w') = ["doc_chunk_0"]
    ∧ e_metadata <$> c_entries (chroma w')
      = [ {[ "document_id" := SStr "other"; "chunk_index" := SInt 0;
             "filename" := SStr "f.txt" ]} ]
    ∧ chunks_of "doc" (chroma w') = [].
Proof.
  intros body. eexists _, _. split; [vm_compute; reflexivity|].
  repeat split; vm_compute; reflexivity.
Qed.

(** ** Health endpoint *)

Lemma embedding_check_connection_total self w :
  ∃ ok names w',
    EmbeddingService.check_connection self w = (inr (ok, names), w').
Proof.
  unfold EmbeddingService.check_connection. run.
  destruct (client_list _ _); eauto.
Qed.

Lemma vector_store_check_connection_total self w :
  ∃ ok w', VectorStoreService.check_connection self w = (inr ok, w').
Proof.
  unfold VectorStoreService.check_connection. run.
  destruct (VectorStoreService.storage_fault _ _); eauto.
Qed.

(** C10.  The health endpoint always answers.  With both service
    references set (as [init_router] leaves them) the status is "healthy"
    or "degraded", and it is "degraded" when neither Ollama nor the vector
    store can be reached; the status is "unhealthy" exactly when a
    reference is still [None]. *)
Theorem health_check_status g w :
  ∃ r w',
    rag_router.health_check g w = (inr r, w')
    ∧ (models.status r = "unhealthy"
       ↔ rag_router._embedding_service g = None
         ∨ rag_router._vector_store g = None)
    ∧ (∀ rag es vs g0, g = rag_router.init_router rag es vs g0 →
         (models.status r = "healthy" ∨ models.status r = "degraded")
         ∧ (models.ollama_connected r = false
            ∧ models.chromadb_connected r = false
            → models.status r = "degraded")
         ∧ (models.status r = "healthy"
            ↔ models.ollama_connected r = true
              ∧ models.chromadb_connected r = true)).
Proof.
  unfold rag_router.health_check.
  destruct (rag_router._embedding_service g) as [es|] eqn:Hes;
    destruct (rag_router._vector_store g) as [vs|] eqn:Hvs.
  - destruct (embedding_check_connection_total es w) as (ok & names & w1 & H1).
    destruct (vector_store_check_connection_total vs w1) as (ok' & w2 & H2).
    unfold mbind, M_bind at 1. rewrite H1.
    unfold mbind, M_bind at 1. rewrite H2.
    eexists _, _. split; [reflexivity|]. simpl.
    destruct ok, ok'; simpl; intuition (discriminate || auto).
  - eexists _, _. split; [reflexivity|]. simpl. split; [tauto|].
    intros ???? ->. simpl in *. discriminate.
  - eexists _, _. split; [reflexivity|]. simpl. split; [tauto|].
    intros ???? ->. simpl in *. discriminate.
  - eexists _, _. split; [reflexivity|]. simpl. split; [tauto|].
    intros ???? ->. simpl in *. discriminate.
Qed.

(** With Ollama and the vector store both out of reach, an initialized
    router reports "degraded". *)
Lemma health_check_all_down :
  let g := rag_router.init_router (Demo.rag_service Demo.client_down)
             (Demo.embedding_service Demo.client_down) Demo.vector_store_down
             rag_router.uninitialized in
  rag_router.health_check g empty_world
  = (inr {| models.status := "degraded";
            models.ollama_connected := false;
            models.chromadb_connected := false;
            models.models_available := [] |},
     World empty_collection [OllamaList; ChromaCount]).
Proof. reflexivity. Qed.

(** ** Batch embedding *)

Section generate_embeddings.

Variable self : EmbeddingService.t.

Lemma generate_embedding_run text w :
  EmbeddingService.generate_embedding self text w
  = (answer_at self w [] 0 text,
     World (chroma w) (calls w ++ [OllamaEmbeddings text])).
Proof.
  unfold EmbeddingService.generate_embedding, answer_at, remote. simpl.
  by rewrite app_nil_r.
Qed.

Lemma answer_at_cons w text texts i t :
  answer_at self (World (chroma w) (calls w ++ [OllamaEmbeddings text]))
    texts i t
  = answer_at self w (text :: texts) (S i) t.
Proof. unfold answer_at. simpl. by rewrite <- app_assoc. Qed.

(** The loop, started with [embeddings] already built: it appends one
    vector per text, in order, or stops at the first text the server
    rejects. *)
Lemma generate_embeddings_loop_spec texts : ∀ embeddings w,
  match EmbeddingService.generate_embeddings_loop self embeddings texts w with
  | (inr result, w') =>
      ∃ new, result = embeddings ++ new
        ∧ length new = length texts
        ∧ (∀ i t, texts !! i = Some t →
             ∃ v, new !! i = Some v ∧ answer_at self w texts i t = inr v)
        ∧ calls w' = calls w ++ (OllamaEmbeddings <$> texts)
        ∧ chroma w' = chroma w
  | (inl e, w') =>
      ∃ i t, texts !! i = Some t
        ∧ answer_at self w texts i t = inl e
        ∧ (∀ j u, j < i → texts !! j = Some u →
             ∃ v, answer_at self w texts j u = inr v)
        ∧ calls w' = calls w ++ (OllamaEmbeddings <$> take (S i) texts)
        ∧ chroma w' = chroma w
  end.
Proof.
  induction texts as [|text texts IH]; intros embeddings w; simpl.
  - exists []. rewrite !app_nil_r. repeat split; try done.
  - unfold mbind, M_bind. rewrite generate_embedding_run.
    destruct (answer_at self w [] 0 text) as [e|v] eqn:Hfirst.
    + exists 0, text. simpl. repeat split; try done. intros; lia.
    + set (w1 := World (chroma w) (calls w ++ [OllamaEmbeddings text])).
      specialize (IH (embeddings ++ [v]) w1).
      destruct (EmbeddingService.generate_embeddings_loop self
                  (embeddings ++ [v]) texts w1) as [[e|result] w'].
      * destruct IH as (i & t & Hi & Ht & Hbefore & Hcalls & Hchroma).
        exists (S i), t. simpl. split; [done|].
        split; [by rewrite <- answer_at_cons|].
        split; [|split].
        -- intros [|j] u Hj Hu; simpl in Hu.
           ++ inversion Hu; subst u. by exists v.
           ++ rewrite <- answer_at_cons. apply Hbefore; [lia|done].
        -- rewrite Hcalls. unfold w1. simpl. by rewrite <- app_assoc.
        -- by rewrite Hchroma.
      * destruct IH as (new & -> & Hlen & Hnth & Hcalls & Hchroma).
        exists (v :: new). rewrite <- app_assoc. simpl.
        split; [done|]. split; [by rewrite Hlen|].
        split; [|split].
        -- intros [|i] t Ht; simpl in Ht.
           ++ inversion Ht; subst t. by exists v.
           ++ rewrite <- answer_at_cons. by apply Hnth.
        -- rewrite Hcalls. unfold w1. simpl. by rewrite <- app_assoc.
        -- by rewrite Hchroma.
Qed.

(** C6.  [generate_embeddings] always returns.  When it returns vectors,
    there are as many as texts, the [i]-th vector is the server's answer
    for the [i]-th text, and the server was called exactly once per
    text, in input order.  Otherwise the result is the error of the
    first text the server rejected (every earlier text was answered, no
    later text was sent), and no vector is returned.  The collection is
    untouched either way. *)
Theorem generate_embeddings_spec texts w :
  match EmbeddingService.generate_embeddings self texts w with
  | (inr result, w') =>
      length result = length texts
      ∧ (∀ i t, texts !! i = Some t →
           ∃ v, result !! i = Some v ∧ answer_at self w texts i t = inr v)
      ∧ new_calls w w' = OllamaEmbeddings <$> texts
      ∧ chroma w' = chroma w
  | (inl e, w') =>
      ∃ i t, texts !! i = Some t
        ∧ answer_at self w texts i t = inl e
        ∧ (∀ j u, j < i → texts !! j = Some u →
             ∃ v, answer_at self w texts j u = inr v)
        ∧ new_calls w w' = OllamaEmbeddings <$> take (S i) texts
        ∧ chroma w' = chroma w
  end.
Proof.
  unfold EmbeddingService.generate_embeddings, new_calls.
  pose proof (generate_embeddings_loop_spec texts [] w) as H.
  destruct (EmbeddingService.generate_embeddings_loop self [] texts w)
    as [[e|result] w'].
  - destruct H as (i & t & Hi & Ht & Hbefore & Hcalls & Hchroma).
    exists i, t. repeat split; try done.
    rewrite Hcalls. by rewrite drop_app_length.
  - destruct H as (new & -> & Hlen & Hnth & Hcalls & Hchroma).
    simpl. repeat split; try done.
    rewrite Hcalls. by rewrite drop_app_length.
Qed.

End generate_embeddings.

(** A batch whose second text is rejected: the error is returned, the
    third text is never sent. *)
Lemma generate_embeddings_abort_example :
  EmbeddingService.generate_embeddings
    (Demo.embedding_service Demo.client_flaky) ["ok"; "bad"; "later"]
    empty_world
  = (inl (ResponseError "model error"),
     World empty_collection [OllamaEmbeddings "ok"; OllamaEmbeddings "bad"]).
Proof. reflexivity. Qed.

(** ** Deleting a document *)

Lemma filter_none {A} (P : A → Prop) `{!∀ x, Decision (P x)} (l : list A) :
  (∀ x, x ∈ l → ¬ P x) → filter P l = [].
Proof.
  intros Hno. destruct (filter P l) as [|x k] eqn:Hf; [done|].
  assert (x ∈ filter P l) as Hx by (rewrite Hf; left).
  apply list_elem_of_filter in Hx as [HP Hx]. by destruct (Hno x Hx).
Qed.

Lemma filter_all {A} (P : A → Prop) `{!∀ x, Decision (P x)} (l : list A) :
  (∀ x, x ∈ l → P x) → filter P l = l.
Proof.
  induction l as [|x l IH]; intros Hall; [done|].
  rewrite filter_cons_True by (apply Hall; left).
  f_equal. apply IH. intros y Hy. apply Hall. by right.
Qed.

Lemma where_matches_document_id d (m : gmap string scalar) :
  Chroma.where_matches (Some (WhereEq "document_id" (SStr d))) m = true
  ↔ m !! "document_id" = Some (SStr d).
Proof. simpl. apply bool_decide_eq_true. Qed.

Lemma chunks_of_delete_matching d c :
  chunks_of d
    (Chroma.delete
       (Chroma.get_ids (Some (WhereEq "document_id" (SStr d))) c) c) = [].
Proof.
  unfold chunks_of, Chroma.delete, Chroma.get_ids. simpl.
  apply filter_none. intros e He Hd.
  apply list_elem_of_filter in He as [Hout He]. apply Hout.
  apply list_elem_of_fmap. exists e. split; [done|].
  apply list_elem_of_filter. split; [|done].
  by apply bool_decide_eq_true.
Qed.

Lemma chunks_of_no_match d c :
  length (Chroma.get_ids (Some (WhereEq "document_id" (SStr d))) c) = 0 →
  chunks_of d c = [].
Proof.
  unfold chunks_of, Chroma.get_ids. rewrite length_fmap. intros Hlen.
  apply nil_length_inv in Hlen.
  apply filter_none. intros e He Hd.
  assert (e ∈ @nil entry) as Hin; [|by apply not_elem_of_nil in Hin].
  rewrite <- Hlen. apply list_elem_of_filter. split; [|done].
  by apply bool_decide_eq_true.
Qed.

Lemma length_get_ids d c :
  length (Chroma.get_ids (Some (WhereEq "document_id" (SStr d))) c)
  = length (chunks_of d c).
Proof.
  unfold chunks_of, Chroma.get_ids. rewrite length_fmap.
  f_equal. apply list_filter_iff. intros e. simpl.
  apply bool_decide_eq_true.
Qed.

(** A successful [delete_document] returns the number of chunks the
    document had and leaves it with none. *)
Lemma delete_document_inr self d w n w' :
  VectorStoreService.delete_document self d w = (inr n, w') →
  n = length (chunks_of d (chroma w)) ∧ chunks_of d (chroma w') = [].
Proof.
  unfold VectorStoreService.delete_document. run.
  destruct (VectorStoreService.storage_fault self (calls w)); [done|].
  simpl. rewrite length_get_ids.
  case_bool_decide as Hcount; simpl.
  - destruct (VectorStoreService.storage_fault self _); [done|].
    intros [= <- <-]. simpl. split; [done|]. apply chunks_of_delete_matching.
  - intros [= <- <-]. simpl. split; [done|].
    apply chunks_of_no_match. rewrite length_get_ids. lia.
Qed.

(** ** Indexing that fails after the delete *)

Lemma M_bind_run {A B} (m : M A) (f : A → M B) w :
  (m ≫= f) w
  = match m w with
    | (inr a, w') => f a w'
    | (inl e, w') => (inl e, w')
    end.
Proof. reflexivity. Qed.

Lemma split_text_run self text w :
  EmbeddingService.split_text self text w
  = (splitter_split_text (EmbeddingService._splitter self) text, w).
Proof. reflexivity. Qed.

Lemma generate_embeddings_chroma self texts w r w' :
  EmbeddingService.generate_embeddings self texts w = (r, w') →
  chroma w' = chroma w.
Proof.
  unfold EmbeddingService.generate_embeddings. intros Hrun.
  pose proof (generate_embeddings_loop_spec self texts [] w) as H.
  rewrite Hrun in H. destruct r as [e|result].
  - by destruct H as (? & ? & ? & ? & ? & ? & ?).
  - by destruct H as (? & ? & ? & ? & ? & ?).
Qed.

(** A failing [add_chunks] has written nothing. *)
Lemma add_chunks_inl self d chunks embeddings metadata w e w' :
  VectorStoreService.add_chunks self d chunks embeddings metadata w
  = (inl e, w') →
  chroma w' = chroma w.
Proof.
  unfold VectorStoreService.add_chunks. rewrite M_bind_run.
  unfold chroma_call.
  destruct (VectorStoreService.storage_fault self (calls w)).
  - by intros [= _ <-].
  - destruct (_ ≫= _) as [e'|[[] c']]; [by intros [= _ <-]|done].
Qed.

(** C3.  When the initial [delete_document] of [index_document] has
    succeeded and [index_document] nevertheless raises (the splitter, the
    embedding of some chunk, or [add_chunks] failed), the collection is
    the one the delete left: nothing was inserted, and the document has
    no chunk in it. *)
Theorem index_document_failure_leaves_no_chunks
    self d content metadata w n w1 e w' :
  VectorStoreService.delete_document (RagService._vector_store self) d w
  = (inr n, w1) →
  RagService.index_document self d content metadata w = (inl e, w') →
  chroma w' = chroma w1 ∧ chunks_of d (chroma w') = [].
Proof.
  intros Hdelete Hindex.
  assert (chroma w' = chroma w1) as Hsame.
  { revert Hindex. unfold RagService.index_document.
    rewrite M_bind_run, Hdelete, M_bind_run, split_text_run.
    destruct (splitter_split_text _ content) as [e1|chunks];
      [by intros [= _ <-]|].
    case_bool_decide; [done|].
    rewrite M_bind_run.
    destruct (EmbeddingService.generate_embeddings _ chunks w1)
      as [[e2|embeddings] w2] eqn:Hembed.
    - intros [= _ <-]. by eapply generate_embeddings_chroma.
    - rewrite M_bind_run.
      destruct (VectorStoreService.add_chunks _ d chunks embeddings metadata w2)
        as [[e3|count] w3] eqn:Hadd; [|done].
      intros [= _ <-]. apply add_chunks_inl in Hadd. rewrite Hadd.
      by eapply generate_embeddings_chroma. }
  split; [done|]. rewrite Hsame.
  by apply delete_document_inr in Hdelete as [_ ?].
Qed.

Lemma index_document_failure_leaves_no_chunks_witness :
  let flaky := Demo.rag_service Demo.client_flaky in
  let w := Demo.indexed "a" "good" None empty_world in
  length (chunks_of "a" (chroma w)) = 1
  ∧ chunks_of "a" (chroma (RagService.index_document flaky "a" "bad" None w).2)
    = [].
Proof.
  intros flaky w. split; [vm_compute; reflexivity|].
  refine (proj2 (index_document_failure_leaves_no_chunks flaky "a" "bad" None w
            1
            (VectorStoreService.delete_document Demo.vector_store "a" w).2
            (ResponseError "model error")
            (RagService.index_document flaky "a" "bad" None w).2 _ _));
    vm_compute; reflexivity.
Defined.

(** ** Searching the collection *)

Lemma insert_by_perm d e l : Chroma.insert_by d e l ≡ₚ e :: l.
Proof.
  induction l as [|x l IH]; simpl; [done|].
  destruct (Qle_bool (d x) (d e)); [|done].
  rewrite IH. apply Permutation_swap.
Qed.

Lemma rank_perm d l : Chroma.rank d l ≡ₚ l.
Proof.
  induction l as [|x l IH]; simpl; [done|].
  rewrite insert_by_perm. by rewrite IH.
Qed.

(** A record found by a search is in the collection and satisfies the
    filter; at most [n_results] records are found. *)
Lemma nearest_elem_of space q n wf c e :
  e ∈ Chroma.nearest space q n wf c →
  e ∈ c_entries c ∧ Chroma.where_matches wf (e_metadata e) = true.
Proof.
  unfold Chroma.nearest. intros He.
  apply subseteq_take in He. rewrite rank_perm in He.
  apply list_elem_of_filter in He. tauto.
Qed.

Lemma nearest_length space q n wf c :
  length (Chroma.nearest space q n wf c) ≤ Z.to_nat n.
Proof. unfold Chroma.nearest. rewrite length_take. lia. Qed.

Lemma nearest_no_filter space q n c :
  Chroma.nearest space q n None c
  = take (Z.to_nat n) (Chroma.rank (λ e, space q (e_embedding e)) (c_entries c)).
Proof.
  unfold Chroma.nearest. f_equal. f_equal. by apply filter_all.
Qed.

(** What a matching record says about its document, for the filters
    [VectorStoreService.query] builds. *)
Lemma where_filter_matches (l : list string) (m : gmap string scalar) :
  l ≠ [] →
  Chroma.where_matches (VectorStoreService.where_filter (Some l)) m = true →
  ∃ d, m !! "document_id" = Some (SStr d) ∧ d ∈ l.
Proof.
  intros Hne. destruct l as [|d [|d' l]]; [done| |]; simpl.
  - intros Hm%bool_decide_eq_true. exists d. split; [done|]. left.
  - destruct (m !! "document_id") as [v|]; [|done].
    intros Hm%bool_decide_eq_true.
    change (v ∈ SStr <$> (d :: d' :: l)) in Hm.
    apply list_elem_of_fmap in Hm as (x & -> & Hx). by exists x.
Qed.

(** The shape of a successful [VectorStoreService.query]. *)
Lemma vector_store_query_inr self q k ids w results w' :
  VectorStoreService.query self q k ids w = (inr results, w') →
  let wf := VectorStoreService.where_filter ids in
  let hits := Chroma.nearest (VectorStoreService.space self) q k wf (chroma w) in
  (0 < k)%Z
  ∧ results = QueryResult [e_id <$> hits] [e_document <$> hits]
                [e_metadata <$> hits]
                [(λ e, VectorStoreService.space self q (e_embedding e)) <$> hits]
  ∧ chroma w' = chroma w
  ∧ calls w' = calls w ++ [ChromaQuery k wf].
Proof.
  unfold VectorStoreService.query, chroma_call, Chroma.query.
  destruct (VectorStoreService.storage_fault self (calls w)); [done|].
  case_bool_decide as Hk; [done|]. simpl.
  destruct (negb _); [done|]. simpl.
  intros [= <- <-]. simpl. repeat split; try done. lia.
Qed.

(** ** The loop of [RagService.query] *)

Lemma getitem_inr {A} (l : list A) i x : getitem l i = inr x ↔ l !! i = Some x.
Proof. unfold getitem. destruct (l !! i); split; congruence. Qed.

Lemma collect_spec results ms ds docs :
  r_metadatas results !! 0 = Some ms →
  r_distances results !! 0 = Some ds →
  ∀ i sources parts searched out,
    RagService.collect results i docs (sources, parts, searched) = inr out →
    ∃ new searched',
      out = (sources ++ new, parts ++ docs, searched')
      ∧ length new = length docs
      ∧ ∀ j doc, docs !! j = Some doc →
          ∃ s m dist,
            new !! j = Some s ∧ ms !! (i + j) = Some m
            ∧ ds !! (i + j) = Some dist
            ∧ m !! "document_id" = Some (SStr (models.document_id s))
            ∧ models.chunk_text s = doc
            ∧ models.relevance_score s
              = py_round (RagService.relevance dist) 4
            ∧ models.metadata s = Some m.
Proof.
  intros Hms Hds. apply getitem_inr in Hms, Hds.
  induction docs as [|doc docs IH]; intros i sources parts searched out; simpl.
  - intros [= <-]. exists [], searched. rewrite !app_nil_r.
    repeat split; try done.
  - unfold mbind, exn_bind. rewrite Hms, Hds.
    destruct (getitem ms i) as [|m] eqn:Hm; [done|].
    destruct (getitem ds i) as [|dist] eqn:Hdist; [done|].
    unfold dict_getitem.
    destruct (m !! "document_id") as [doc_id|] eqn:Hdoc; [|done].
    destruct doc_id as [d| |]; simpl; try done.
    intros Hrest. apply IH in Hrest as (new & searched' & -> & Hlen & Hnth).
    eexists (_ :: new), searched'. rewrite <- !app_assoc. simpl.
    split; [done|]. split; [by rewrite Hlen|].
    intros [|j] doc' Hj; simpl in Hj.
    + inversion Hj; subst doc'. eexists _, m, dist. simpl.
      rewrite Nat.add_0_r. apply getitem_inr in Hm, Hdist.
      repeat split; done.
    + replace (i + S j) with (S i + j) by lia. by apply Hnth.
Qed.

(** ** [RagService.query] *)

Lemma collect_reports space q (hits : list entry) out :
  RagService.collect
    (QueryResult [e_id <$> hits] [e_document <$> hits] [e_metadata <$> hits]
       [(λ e, space q (e_embedding e)) <$> hits])
    0 (e_document <$> hits) ([], [], ∅) = inr out →
  out.1.2 = e_document <$> hits ∧ Forall2 (reports space q) hits out.1.1.
Proof.
  intros Hrun.
  eapply collect_spec in Hrun as (new & searched' & -> & Hlen & Hnth);
    [|reflexivity..].
  simpl. split; [done|]. rewrite length_fmap in Hlen.
  apply Forall2_same_length_lookup_2; [done|].
  intros j e s He Hs.
  destruct (Hnth j (e_document e)) as (s' & m & dist & Hs' & Hm & Hd & Hrep).
  { by rewrite list_lookup_fmap, He. }
  simpl in Hm, Hd. rewrite list_lookup_fmap, He in Hm.
  rewrite list_lookup_fmap, He in Hd.
  simpl in Hm, Hd. injection Hm as <-. injection Hd as <-.
  rewrite Hs in Hs'. injection Hs' as <-. exact Hrep.
Qed.

(** A successful query: the question was embedded, the sources report, in
    order, the records the collection found for that vector, and the
    collection is unchanged. *)
Lemma query_inr self question ids k w resp w' :
  RagService.query self question ids k w = (inr resp, w') →
  ∃ q,
    answer_at (RagService._embedding_service self) w [] 0 question = inr q
    ∧ (0 < k)%Z
    ∧ Forall2 (reports (VectorStoreService.space (RagService._vector_store self)) q)
        (Chroma.nearest
           (VectorStoreService.space (RagService._vector_store self)) q k
           (VectorStoreService.where_filter ids) (chroma w))
        (models.sources resp)
    ∧ chroma w' = chroma w.
Proof.
  unfold RagService.query. rewrite M_bind_run, generate_embedding_run.
  destruct (answer_at _ w [] 0 question) as [|q] eqn:Hq; [done|].
  rewrite M_bind_run.
  destruct (VectorStoreService.query _ q k ids _) as [[|results] w2] eqn:Hs;
    [done|].
  apply vector_store_query_inr in Hs. cbv zeta in Hs.
  destruct Hs as (Hk & Hresults & Hchroma & Hcalls). subst results.
  simpl in Hchroma, Hcalls. rewrite M_bind_run. unfold lift.
  unfold RagService.has_results. cbn [r_ids r_documents chroma]. cbv iota.
  intros Hrun. exists q. split; [done|]. split; [done|]. revert Hrun.
  set (hits := Chroma.nearest _ q k _ (chroma w)).
  destruct (decide (hits = [])) as [Hnil|Hsome].
  - rewrite Hnil. simpl. intros [= <- <-]. simpl. split; [constructor|done].
  - rewrite bool_decide_eq_false_2 by (by intros ?%fmap_nil_inv).
    cbn [negb]. unfold mbind at 1, exn_bind at 1.
    change (getitem [e_document <$> hits] 0) with (@inr exn _ (e_document <$> hits)).
    cbv iota beta.
    destruct (RagService.collect _ 0 _ _) as [|[[sources parts] searched]] eqn:Hc;
      [done|].
    apply collect_reports in Hc as [Hparts Hrep].
    simpl in Hparts, Hrep. subst parts.
    rewrite bool_decide_eq_false_2 by (by intros ?%fmap_nil_inv).
    rewrite M_bind_run. unfold remote.
    destruct (client_chat _ _ _ _) as [|answer]; [done|].
    intros [= <- <-]. simpl. done.
Qed.

(** C4.  When the question has been embedded and the search of the vector
    store comes back without results, [query] returns the fixed answer
    with no sources and no searched document ids, in the world the search
    left: the only calls of the whole query are the embedding and the
    search, so the language model is not called. *)
Theorem query_without_results self question ids k w q w1 results w2 :
  EmbeddingService.generate_embedding (RagService._embedding_service self)
    question w = (inr q, w1) →
  VectorStoreService.query (RagService._vector_store self) q k ids w1
  = (inr results, w2) →
  RagService.has_results results = false →
  RagService.query self question ids k w
  = (inr {| models.answer := NO_DOCUMENTS_ANSWER;
            models.sources := [];
            models.document_ids_searched := [] |}, w2)
  ∧ new_calls w w2
    = [OllamaEmbeddings question;
       ChromaQuery k (VectorStoreService.where_filter ids)]
  ∧ ∀ prompt, OllamaChat prompt ∉ new_calls w w2.
Proof.
  intros Hembed Hsearch Hnone.
  assert (new_calls w w2
          = [OllamaEmbeddings question;
             ChromaQuery k (VectorStoreService.where_filter ids)]) as Hcalls.
  { rewrite generate_embedding_run in Hembed. injection Hembed as _ <-.
    apply vector_store_query_inr in Hsearch. cbv zeta in Hsearch.
    destruct Hsearch as (_ & _ & _ & Hcalls). simpl in Hcalls.
    unfold new_calls. rewrite Hcalls, <- app_assoc.
    by rewrite drop_app_length. }
  split; [|split; [done|]].
  - unfold RagService.query.
    rewrite M_bind_run, Hembed, M_bind_run, Hsearch, M_bind_run.
    unfold lift. rewrite Hnone. simpl. by rewrite elements_empty.
  - intros prompt. rewrite Hcalls. intros Hin.
    apply list_elem_of_In in Hin. simpl in Hin.
    destruct Hin as [|[|[]]]; discriminate.
Qed.

Lemma query_without_results_witness :
  RagService.query (Demo.rag_service Demo.client) "hello" None 3 empty_world
  = (inr {| models.answer := NO_DOCUMENTS_ANSWER;
            models.sources := [];
            models.document_ids_searched := [] |},
     World empty_collection
       [OllamaEmbeddings "hello"; ChromaQuery 3 None]).
Proof.
  refine (proj1 (query_without_results (Demo.rag_service Demo.client)
            "hello" None 3 empty_world [5%Q; 1%Q]
            (World empty_collection [OllamaEmbeddings "hello"])
            (QueryResult [[]] [[]] [[]] [[]])
            (World empty_collection
               [OllamaEmbeddings "hello"; ChromaQuery 3 None]) _ _ _));
    vm_compute; reflexivity.
Defined.

(** C7.  In a successful query with a non-empty [document_ids], every
    source belongs to a listed document.  With [document_ids] absent or
    empty the sources report the [top_k] nearest records of the whole
    collection. *)
Theorem query_document_filter self question ids k w resp w' :
  RagService.query self question ids k w = (inr resp, w') →
  (∀ l, ids = Some l → l ≠ [] →
     ∀ s, s ∈ models.sources resp → models.document_id s ∈ l)
  ∧ (ids = None ∨ ids = Some [] →
     ∃ q,
       answer_at (RagService._embedding_service self) w [] 0 question = inr q
       ∧ Forall2
           (reports (VectorStoreService.space (RagService._vector_store self)) q)
           (take (Z.to_nat k)
              (Chroma.rank
                 (λ e, VectorStoreService.space (RagService._vector_store self)
                         q (e_embedding e))
                 (c_entries (chroma w))))
           (models.sources resp)).
Proof.
  intros Hrun. apply query_inr in Hrun as (q & Hq & Hk & Hrep & _). split.
  - intros l -> Hne s Hs.
    apply list_elem_of_lookup in Hs as [j Hj].
    destruct (Forall2_lookup_r _ _ _ _ _ Hrep Hj) as (e & He & Hd & _).
    apply list_elem_of_lookup_2, nearest_elem_of in He as [_ Hmatch].
    apply where_filter_matches in Hmatch as (d & Hd' & Hin); [|done].
    rewrite Hd in Hd'. by injection Hd' as ->.
  - intros Hall. exists q. split; [done|].
    rewrite <- nearest_no_filter.
    by destruct Hall as [-> | ->].
Qed.

Lemma query_document_filter_witness :
  let w := Demo.indexed "B" "howdy" None
             (Demo.indexed "A" "a much longer text" None empty_world) in
  ∃ resp w',
    RagService.query (Demo.rag_service Demo.client) "hello" (Some ["A"]) 3 w
    = (inr resp, w')
    ∧ length (models.sources resp) = 1
    ∧ ∀ s, s ∈ models.sources resp → models.document_id s ∈ ["A"].
Proof.
  intros w. eexists _, _.
  split; [vm_compute; reflexivity|]. split; [reflexivity|].
  refine (proj1 (query_document_filter (Demo.rag_service Demo.client)
            "hello" (Some ["A"]) 3 w _ _ _) ["A"] eq_refl _).
  - vm_compute; reflexivity.
  - discriminate.
Defined.

(** ** The query endpoint *)

Lemma QueryRequest_validate_inr body request :
  models.QueryRequest_validate body = inr request →
  models.top_k request = default 3%Z (models.body_top_k body)
  ∧ (1 ≤ models.top_k request ≤ 10)%Z.
Proof.
  unfold models.QueryRequest_validate.
  destruct (models.body_question body); [|done].
  case_bool_decide; [done|]. case_bool_decide; [|done].
  intros [= <-]. simpl. done.
Qed.

(** C8.  A response of the query endpoint has at most [top_k] sources
    ([top_k] being the requested value, 3 when absent, and then within
    1..10).  A request whose [top_k] is outside 1..10 is answered with a
    validation error in an unchanged world: nothing was sent to the
    embedding server, the vector store or the language model. *)
Theorem query_documents_top_k g body w :
  (∀ resp w', rag_router.query_documents g body w = (inr resp, w') →
     length (models.sources resp)
     ≤ Z.to_nat (default 3%Z (models.body_top_k body))
     ∧ (1 ≤ default 3%Z (models.body_top_k body) ≤ 10)%Z)
  ∧ (∀ k, models.body_top_k body = Some k → ¬ (1 ≤ k ≤ 10)%Z →
     ∃ field,
       rag_router.query_documents g body w
       = (inl (RequestValidationError field), w)).
Proof.
  unfold rag_router.query_documents. split.
  - intros resp w'. rewrite M_bind_run. unfold lift.
    destruct (models.QueryRequest_validate body) as [|request] eqn:Hvalid;
      [done|].
    apply QueryRequest_validate_inr in Hvalid as [Hk Hrange].
    rewrite M_bind_run. unfold rag_router._get_rag_service.
    destruct (rag_router._rag_service g) as [service|]; [|done].
    unfold mret at 1, M_ret at 1, try_except.
    destruct (RagService.query service _ _ _ w) as [[e|resp'] w''] eqn:Hq;
      [done|].
    intros [= <- <-]. rewrite <- Hk. split; [|done].
    apply query_inr in Hq as (q & _ & _ & Hrep & _).
    rewrite <- (Forall2_length _ _ _ Hrep). apply nearest_length.
  - intros k Hk Hout. rewrite M_bind_run. unfold lift.
    unfold models.QueryRequest_validate. rewrite Hk. simpl.
    destruct (models.body_question body) as [question|]; [|by eexists].
    case_bool_decide; [by eexists|].
    rewrite bool_decide_eq_false_2 by done. by eexists.
Qed.

Lemma query_documents_top_k_witness :
  let w := Demo.indexed "A" "a much longer text" None empty_world in
  let body k := {| models.body_question := Some "hello";
                   models.body_document_ids := None;
                   models.body_top_k := Some k |} in
  (∃ field,
     rag_router.query_documents (Demo.router Demo.client) (body 11%Z) w
     = (inl (RequestValidationError field), w))
  ∧ (∃ field,
     rag_router.query_documents (Demo.router Demo.client) (body 0%Z) w
     = (inl (RequestValidationError field), w))
  ∧ ∃ resp w',
      rag_router.query_documents (Demo.router Demo.client) (body 1%Z) w
      = (inr resp, w')
      ∧ length (models.sources resp) ≤ 1.
Proof.
  intros w body. split; [|split].
  - apply (proj2 (query_documents_top_k (Demo.router Demo.client)
                    (body 11%Z) w) 11%Z eq_refl). lia.
  - apply (proj2 (query_documents_top_k (Demo.router Demo.client)
                    (body 0%Z) w) 0%Z eq_refl). lia.
  - eexists _, _. split; [vm_compute; reflexivity|].
    refine (proj1 (proj1 (query_documents_top_k (Demo.router Demo.client)
                            (body 1%Z) w) _ _ _)).
    vm_compute; reflexivity.
Defined.

(** ** Relevance scores *)

(** *** Rounding to an integer *)

Lemma round_half_even_proper x y : (x == y)%Q → round_half_even x = round_half_even y.
Proof.
  intros Hxy. unfold round_half_even.
  rewrite (Qfloor_comp _ _ Hxy).
  assert ((x - inject_Z (Qfloor y) ?= 1 # 2)%Q
          = (y - inject_Z (Qfloor y) ?= 1 # 2)%Q) as ->; [|done].
  apply Qcompare_comp; [|done]. by rewrite Hxy.
Qed.

(** Rounding stays between integer bounds of its argument. *)
Lemma round_half_even_bounds (a b : Z) x :
  (inject_Z a <= x)%Q → (x <= inject_Z b)%Q →
  (a ≤ round_half_even x ≤ b)%Z.
Proof.
  intros Ha Hb.
  assert (a ≤ Qfloor x)%Z as Hfa.
  { rewrite <- (Qfloor_Z a). by apply Qfloor_resp_le. }
  pose proof (Qfloor_le x) as Hfx.
  assert (Qfloor x ≤ b)%Z as Hfb.
  { rewrite <- (Qfloor_Z b). by apply Qfloor_resp_le. }
  assert ((1 # 2 <= x - inject_Z (Qfloor x))%Q → (Qfloor x + 1 ≤ b)%Z) as Hup.
  { intros Hhalf. cut (Qfloor x < b)%Z; [lia|].
    rewrite Zlt_Qlt. lra. }
  unfold round_half_even.
  destruct (x - inject_Z (Qfloor x) ?= 1 # 2)%Q eqn:Hcmp.
  - apply Qeq_alt in Hcmp.
    destruct (Z.even (Qfloor x)); [lia|].
    split; [lia|]. apply Hup. lra.
  - lia.
  - apply Qgt_alt in Hcmp. split; [lia|]. apply Hup. lra.
Qed.

(** Rounding moves its argument by at most one half. *)
Lemma round_half_even_error x :
  (Qabs (inject_Z (round_half_even x) - x) <= 1 # 2)%Q.
Proof.
  pose proof (Qfloor_le x) as Hlo. pose proof (Qlt_floor x) as Hhi.
  rewrite inject_Z_plus in Hhi. change (inject_Z 1) with 1%Q in Hhi.
  apply Qabs_Qle_condition. unfold round_half_even.
  destruct (x - inject_Z (Qfloor x) ?= 1 # 2)%Q eqn:Hcmp.
  - apply Qeq_alt in Hcmp.
    destruct (Z.even (Qfloor x));
      rewrite ?inject_Z_plus; change (inject_Z 1) with 1%Q; split; lra.
  - apply Qlt_alt in Hcmp. split; lra.
  - apply Qgt_alt in Hcmp. rewrite inject_Z_plus.
    change (inject_Z 1) with 1%Q. split; lra.
Qed.

Lemma round_half_even_floor x :
  (Qfloor x ≤ round_half_even x ≤ Qfloor x + 1)%Z.
Proof.
  unfold round_half_even.
  destruct (x - inject_Z (Qfloor x) ?= 1 # 2)%Q; [|lia..].
  destruct (Z.even (Qfloor x)); lia.
Qed.

Lemma round_half_even_mono x y :
  (x <= y)%Q → (round_half_even x ≤ round_half_even y)%Z.
Proof.
  intros Hxy. pose proof (Qfloor_resp_le _ _ Hxy) as Hfloor.
  destruct (decide (Qfloor x = Qfloor y)) as [Heq|Hne].
  - unfold round_half_even. rewrite <- Heq.
    destruct (Qcompare_spec (x - inject_Z (Qfloor x)) (1 # 2)) as [Hx|Hx|Hx];
      destruct (Qcompare_spec (y - inject_Z (Qfloor x)) (1 # 2)) as [Hy|Hy|Hy];
      try (destruct (Z.even (Qfloor x))); try lia; exfalso; lra.
  - pose proof (round_half_even_floor x). pose proof (round_half_even_floor y).
    lia.
Qed.

(** *** Rounding to binary64 *)

Lemma pow2_pos e : (0 < 2 ^ e)%Q.
Proof. by apply Qpower_0_lt. Qed.

Lemma pow2_add a b : (2 ^ (a + b) == 2 ^ a * 2 ^ b)%Q.
Proof. by apply Qpower_plus. Qed.

Lemma pow2_le a b : (a ≤ b)%Z → (2 ^ a <= 2 ^ b)%Q.
Proof. intros Hab. by apply Qpower_le_compat_l. Qed.

Lemma pow2_lt_inv a b : (2 ^ a < 2 ^ b)%Q → (a < b)%Z.
Proof. intros Hab. by apply (Qpower_lt_compat_l_inv 2). Qed.

Lemma pow2_succ a : (2 ^ (a + 1) == 2 * 2 ^ a)%Q.
Proof. rewrite pow2_add. change (2 ^ 1)%Q with 2%Q. ring. Qed.

Lemma pow2_Z n : (0 ≤ n)%Z → (2 ^ n == inject_Z (2 ^ n))%Q.
Proof. intros Hn. by rewrite Zpower_Qpower. Qed.

(** [binade x] is the exponent of the power of two at or below [|x|]. *)
Lemma binade_spec x :
  ¬ (x == 0)%Q →
  (2 ^ binade x <= Qabs x)%Q ∧ (Qabs x < 2 ^ (binade x + 1))%Q.
Proof.
  intros Hx. unfold binade.
  set (n := Z.abs (Qnum x)). set (d := Z.pos (Qden x)).
  assert (0 < n)%Z as Hn.
  { unfold n. destruct x as [[|p|p] q]; simpl; try lia.
    exfalso. apply Hx. reflexivity. }
  assert (0 < d)%Z as Hd by (unfold d; lia).
  destruct (Z.log2_spec n Hn) as [Hn1 Hn2].
  destruct (Z.log2_spec d Hd) as [Hd1 Hd2].
  pose proof (Z.log2_nonneg n) as Ha. pose proof (Z.log2_nonneg d) as Hb.
  set (a := Z.log2 n) in *. set (b := Z.log2 d) in *.
  rewrite Z.pow_succ_r in Hn2, Hd2 by done.
  assert (Qabs x * inject_Z d == inject_Z n)%Q as Hx'.
  { unfold Qabs, n, d. destruct x as [xn xd]. simpl.
    unfold Qeq, Qmult. simpl. lia. }
  rewrite Zle_Qle in Hn1, Hd1. rewrite Zlt_Qlt in Hn2, Hd2, Hd.
  rewrite inject_Z_mult in Hn2, Hd2.
  rewrite <- !pow2_Z in Hn1, Hn2, Hd1, Hd2 by done.
  change (inject_Z 2) with 2%Q in *. change (inject_Z 0) with 0%Q in *.
  assert (2 ^ (a - b) * 2 ^ b == 2 ^ a)%Q as Hab.
  { rewrite <- pow2_add. by replace (a - b + b)%Z with a by lia. }
  pose proof (pow2_pos (a - b)) as Hp. pose proof (pow2_pos b) as Hpb.
  pose proof (Qabs_nonneg x) as Hx0.
  destruct (Qle_bool (2 ^ (a - b)) (Qabs x)) eqn:Hle.
  - apply Qle_bool_iff in Hle. split; [done|].
    rewrite pow2_succ. 
    apply Qnot_le_lt. intros Hcontra.
    nra.
  - assert (Qabs x < 2 ^ (a - b))%Q as Hlt.
    { apply Qnot_le_lt. intros Hc. apply Qle_bool_iff in Hc. congruence. }
    replace (a - b - 1 + 1)%Z with (a - b)%Z by lia. split; [|done].
    assert (2 ^ (a - b) == 2 * 2 ^ (a - b - 1))%Q as Hhalf.
    { rewrite <- pow2_succ. by replace (a - b - 1 + 1)%Z with (a - b)%Z by lia. }
    apply Qnot_lt_le. intros Hcontra. nra.
Qed.

Lemma binade_mono x y :
  (0 < x)%Q → (x <= y)%Q → (binade x ≤ binade y)%Z.
Proof.
  intros Hx Hxy.
  destruct (binade_spec x) as [Hx1 _]; [lra|].
  destruct (binade_spec y) as [_ Hy2]; [lra|].
  rewrite Qabs_pos in Hx1, Hy2 by lra.
  cut (binade x < binade y + 1)%Z; [lia|].
  apply pow2_lt_inv. lra.
Qed.

Lemma Qabs_Qabs x : Qabs (Qabs x) = Qabs x.
Proof. destruct x as [n d]. unfold Qabs. by rewrite Z.abs_idemp. Qed.

Lemma binade_Qabs x : binade (Qabs x) = binade x.
Proof.
  unfold binade. rewrite Qabs_Qabs. destruct x as [n d]. simpl.
  by rewrite Z.abs_idemp.
Qed.

Lemma float_magnitude_Qabs x : float_magnitude (Qabs x) = float_magnitude x.
Proof. unfold float_magnitude, float_ulp. by rewrite binade_Qabs, Qabs_Qabs. Qed.

Lemma float_ulp_pos x : (0 < float_ulp x)%Q.
Proof. apply pow2_pos. Qed.

Lemma float_magnitude_nonneg x : (0 <= float_magnitude x)%Q.
Proof.
  unfold float_magnitude. pose proof (float_ulp_pos x) as Hu.
  apply Qmult_le_0_compat; [|lra].
  change 0%Q with (inject_Z 0). rewrite <- Zle_Qle.
  assert (round_half_even 0 = 0%Z) as <- by reflexivity.
  apply round_half_even_mono.
  apply Qle_shift_div_l; [done|]. pose proof (Qabs_nonneg x). lra.
Qed.

Lemma float_magnitude_0 x : (x == 0)%Q → (float_magnitude x == 0)%Q.
Proof.
  intros Hx. unfold float_magnitude.
  assert (Qabs x == 0)%Q as Hax by (by rewrite Hx).
  rewrite (round_half_even_proper _ 0);
    [change (round_half_even 0) with 0%Z; ring|].
  unfold Qdiv. rewrite Hax. ring.
Qed.

(** The mantissa and the bounds of the binade. *)
Lemma float_magnitude_bounds x :
  ¬ (x == 0)%Q →
  let E := Z.max (binade x) (-1022) in
  (float_magnitude x <= 2 ^ (E + 1))%Q
  ∧ ((-1022 ≤ binade x)%Z → (2 ^ E <= float_magnitude x)%Q).
Proof.
  intros Hx E. destruct (binade_spec x Hx) as [Hlo Hhi].
  unfold float_magnitude, float_ulp. fold E.
  set (u := (2 ^ (E - 52))%Q). pose proof (pow2_pos (E - 52)) as Hu. fold u in Hu.
  assert (2 ^ (E + 1) == inject_Z (2 ^ 53) * u)%Q as Hup.
  { unfold u. rewrite <- pow2_Z by done. rewrite <- pow2_add.
    by replace (53 + (E - 52))%Z with (E + 1)%Z by lia. }
  assert (2 ^ E == inject_Z (2 ^ 52) * u)%Q as Hdown.
  { unfold u. rewrite <- pow2_Z by done. rewrite <- pow2_add.
    by replace (52 + (E - 52))%Z with E by lia. }
  assert (Qabs x <= 2 ^ (E + 1))%Q as Hx2.
  { apply Qlt_le_weak. eapply Qlt_le_trans; [exact Hhi|].
    apply pow2_le. lia. }
  pose proof (Qabs_nonneg x) as Hx0.
  set (t := (Qabs x / u)%Q).
  assert (t * u == Qabs x)%Q as Ht by (unfold t; field; lra).
  assert (0 <= t)%Q as Ht0 by (by apply Qle_shift_div_l; [|lra]).
  assert (t <= inject_Z (2 ^ 53))%Q as Ht1.
  { apply Qle_shift_div_r; [done|]. by rewrite <- Hup. }
  split.
  - destruct (round_half_even_bounds 0 (2 ^ 53) t) as [_ Hm]; [done..|].
    rewrite Zle_Qle in Hm. rewrite Hup.
    apply Qmult_le_compat_r; [done|lra].
  - intros Hnormal. assert (E = binade x) as HE by lia.
    assert (inject_Z (2 ^ 52) <= t)%Q as Ht2.
    { apply Qle_shift_div_l; [done|]. rewrite <- Hdown, HE. done. }
    destruct (round_half_even_bounds (2 ^ 52) (2 ^ 53) t) as [Hm _]; [done..|].
    rewrite Zle_Qle in Hm. rewrite Hdown.
    apply Qmult_le_compat_r; [done|lra].
Qed.

(** Rounding is monotone: inside a binade because rounding the mantissa
    is, across binades because the power of two between them is a float. *)
Lemma float_magnitude_mono x y :
  (0 < x)%Q → (x <= y)%Q → (float_magnitude x <= float_magnitude y)%Q.
Proof.
  intros Hx Hxy. pose proof (binade_mono x y Hx Hxy) as Hb.
  destruct (decide (Z.max (binade x) (-1022) = Z.max (binade y) (-1022)))
    as [Heq|Hne].
  - unfold float_magnitude, float_ulp. rewrite Heq.
    set (u := (2 ^ (Z.max (binade y) (-1022) - 52))%Q).
    assert (0 < u)%Q as Hu by apply pow2_pos.
    apply Qmult_le_compat_r; [|lra].
    rewrite <- Zle_Qle. apply round_half_even_mono.
    rewrite !Qabs_pos by lra.
    apply Qmult_le_compat_r; [done|].
    apply Qlt_le_weak, Qinv_lt_0_compat, Hu.
  - destruct (float_magnitude_bounds x) as [Hux _]; [lra|].
    destruct (float_magnitude_bounds y) as [_ Hly]; [lra|].
    cbv zeta in Hux, Hly.
    eapply Qle_trans; [exact Hux|].
    eapply Qle_trans; [|apply Hly; lia].
    apply pow2_le. lia.
Qed.

Lemma nearest_double_mono x y :
  (x <= y)%Q → (nearest_double x <= nearest_double y)%Q.
Proof.
  intros Hxy. unfold nearest_double.
  pose proof (float_magnitude_nonneg x) as Hmx.
  pose proof (float_magnitude_nonneg y) as Hmy.
  destruct (Qle_bool 0 x) eqn:Hsx, (Qle_bool 0 y) eqn:Hsy.
  - apply Qle_bool_iff in Hsx.
    destruct (Qeq_dec x 0) as [Hx0|Hx0].
    + by rewrite (float_magnitude_0 x).
    + apply float_magnitude_mono; [|done].
      apply Qnot_le_lt. intros Hc. apply Hx0. lra.
  - apply Qle_bool_iff in Hsx.
    exfalso. assert (0 <= y)%Q as Hy by lra.
    apply Qle_bool_iff in Hy. congruence.
  - lra.
  - assert (x < 0)%Q as Hx.
    { apply Qnot_le_lt. intros Hc. apply Qle_bool_iff in Hc. congruence. }
    assert (y < 0)%Q as Hy.
    { apply Qnot_le_lt. intros Hc. apply Qle_bool_iff in Hc. congruence. }
    rewrite <- (float_magnitude_Qabs x), <- (float_magnitude_Qabs y).
    cut (float_magnitude (Qabs y) <= float_magnitude (Qabs x))%Q; [lra|].
    pose proof (Qabs_neg x) as Hax. pose proof (Qabs_neg y) as Hay.
    apply float_magnitude_mono; [rewrite Hay; lra|].
    rewrite Hax, Hay; lra.
Qed.

Lemma float_magnitude_error x :
  (Qabs (float_magnitude x - Qabs x) <= float_ulp x / 2)%Q.
Proof.
  unfold float_magnitude. pose proof (float_ulp_pos x) as Hu.
  set (u := float_ulp x) in *. set (t := (Qabs x / u)%Q).
  assert (t * u == Qabs x)%Q as Ht by (unfold t; field; lra).
  pose proof (round_half_even_error t) as Herr.
  apply Qabs_Qle_condition in Herr. destruct Herr as [Hlo Hhi].
  apply Qabs_Qle_condition. unfold Qdiv. change (/ 2)%Q with (1 # 2)%Q.
  split; nra.
Qed.

(** Rounding moves a number by at most half an ulp. *)
Lemma nearest_double_error x :
  (Qabs (nearest_double x - x) <= float_ulp x / 2)%Q.
Proof.
  pose proof (float_magnitude_error x) as Herr.
  apply Qabs_Qle_condition in Herr. destruct Herr as [Hlo Hhi].
  apply Qabs_Qle_condition. unfold nearest_double.
  destruct (Qle_bool 0 x) eqn:Hs.
  - apply Qle_bool_iff in Hs. rewrite Qabs_pos in Hlo, Hhi by done. done.
  - assert (x <= 0)%Q as Hx.
    { apply Qlt_le_weak, Qnot_le_lt. intros Hc. apply Qle_bool_iff in Hc. congruence. }
    rewrite Qabs_neg in Hlo, Hhi by done. split; lra.
Qed.

(** Within [-1, 1] rounding moves a number by at most 2^-53. *)
Lemma nearest_double_error_unit x :
  (Qabs x <= 1)%Q → (Qabs (nearest_double x - x) <= 2 ^ (-53))%Q.
Proof.
  intros Hx. destruct (Qeq_dec x 0) as [Hx0|Hx0].
  - apply Qabs_Qle_condition. unfold nearest_double.
    pose proof (float_magnitude_0 x Hx0) as Hm.
    pose proof (pow2_pos (-53)).
    destruct (Qle_bool 0 x); split; lra.
  - eapply Qle_trans; [apply nearest_double_error|].
    destruct (binade_spec x Hx0) as [Hlo _].
    assert (binade x < 1)%Z as Hb.
    { apply pow2_lt_inv. change (2 ^ 1)%Q with 2%Q. lra. }
    unfold float_ulp.
    assert (2 ^ (-53) * 2 == 2 ^ (-52))%Q as Hpow by reflexivity.
    apply Qle_shift_div_r; [done|]. rewrite Hpow.
    apply pow2_le. lia.
Qed.

Lemma float_round_proper x y : (x == y)%Q → float_round x = float_round y.
Proof. intros Hxy. unfold float_round. by rewrite (Qred_complete _ _ Hxy). Qed.

(** Rounding to binary64 is monotone. *)
Lemma float_round_mono x y : (x <= y)%Q → (float_round x <= float_round y)%Q.
Proof.
  intros Hxy. unfold float_round. apply Qred_le, nearest_double_mono.
  by rewrite !Qred_correct.
Qed.

(** 0 and 1 are floats, so rounding keeps a number of [0, 1] there. *)
Lemma float_round_unit x :
  (0 <= x)%Q → (x <= 1)%Q → (0 <= float_round x)%Q ∧ (float_round x <= 1)%Q.
Proof.
  intros H0 H1.
  assert (float_round 0 = 0%Q) as Hzero by (vm_compute; reflexivity).
  assert (float_round 1 = 1%Q) as Hone by (vm_compute; reflexivity).
  split.
  - rewrite <- Hzero. by apply float_round_mono.
  - rewrite <- Hone. by apply float_round_mono.
Qed.

Lemma float_round_error x :
  (Qabs x <= 1)%Q → (Qabs (float_round x - x) <= 2 ^ (-53))%Q.
Proof.
  intros Hx. unfold float_round. rewrite Qred_correct.
  rewrite <- (Qred_correct x) at 2. apply nearest_double_error_unit.
  by rewrite Qred_correct.
Qed.

(** *** [relevance] and [round(relevance, 4)] *)

Lemma py_round_proper x y n : (x == y)%Q → py_round x n = py_round y n.
Proof.
  intros Hxy. unfold py_round.
  by rewrite (round_half_even_proper _ (y * inject_Z (10 ^ Z.of_nat n)))
    by (by rewrite Hxy).
Qed.

Lemma relevance_proper d d' :
  (d == d')%Q → RagService.relevance d = RagService.relevance d'.
Proof.
  intros Hd. unfold RagService.relevance.
  by rewrite (float_round_proper (d / 2) (d' / 2)) by (by rewrite Hd).
Qed.

(** For a distance in [0, 2] the computed relevance lies in [0, 1] and is
    within [2^-52] of the real number [1 - d/2]: the two roundings move it
    by at most [2^-53] each. *)
Lemma relevance_spec d :
  (0 <= d)%Q → (d <= 2)%Q →
  (0 <= RagService.relevance d)%Q ∧ (RagService.relevance d <= 1)%Q
  ∧ (Qabs (RagService.relevance d - (1 - d / 2)) <= 2 ^ (-52))%Q.
Proof.
  intros Hlo Hhi. unfold RagService.relevance.
  assert (d / 2 == d * (1 # 2))%Q as Hhalf by (unfold Qdiv; reflexivity).
  set (a := float_round (d / 2)).
  destruct (float_round_unit (d / 2)) as [Ha0 Ha1]; [lra..|]. fold a in Ha0, Ha1.
  assert (Qabs (a - d / 2) <= 2 ^ (-53))%Q as Hea.
  { apply float_round_error, Qabs_Qle_condition. split; lra. }
  destruct (float_round_unit (1 - a)) as [Hr0 Hr1]; [lra..|].
  assert (Qabs (float_round (1 - a) - (1 - a)) <= 2 ^ (-53))%Q as Her.
  { apply float_round_error, Qabs_Qle_condition. split; lra. }
  set (r := float_round (1 - a)) in *.
  apply Qabs_Qle_condition in Hea as [Hea1 Hea2].
  apply Qabs_Qle_condition in Her as [Her1 Her2].
  split; [done|]. split; [done|].
  assert (2 ^ (-52) == 2 * 2 ^ (-53))%Q as Hpow by reflexivity.
  set (p := (2 ^ (-53))%Q) in *.
  apply Qabs_Qle_condition. rewrite Hpow. split; lra.
Qed.

(** [round(x, 4)] for a float [x] in [0, 1]: the decimal [n / 10000]
    nearest to [x] (within 1/20000), read back as a float (which moves it
    by at most [2^-53]); the result is in [0, 1]. *)
Lemma py_round_4_spec x :
  (0 <= x)%Q → (x <= 1)%Q →
  ∃ n : Z,
    n = round_half_even (x * 10000)
    ∧ (0 ≤ n ≤ 10000)%Z
    ∧ (Qabs (inject_Z n / 10000 - x) <= 1 # 20000)%Q
    ∧ py_round x 4 = float_round (inject_Z n / 10000)
    ∧ (Qabs (py_round x 4 - inject_Z n / 10000) <= 2 ^ (-53))%Q
    ∧ (0 <= py_round x 4)%Q ∧ (py_round x 4 <= 1)%Q.
Proof.
  intros H0 H1. unfold py_round.
  change (inject_Z (10 ^ Z.of_nat 4)) with 10000%Q.
  set (n := round_half_even (x * 10000)). exists n. split; [done|].
  pose proof (round_half_even_error (x * 10000)) as Herr. fold n in Herr.
  apply Qabs_Qle_condition in Herr. destruct Herr as [Hlo Hhi].
  destruct (round_half_even_bounds 0 10000 (x * 10000)) as [Hn0 Hn1].
  { change (inject_Z 0) with 0%Q. lra. }
  { change (inject_Z 10000) with 10000%Q. lra. }
  fold n in Hn0, Hn1. split; [done|].
  rewrite Zle_Qle in Hn0, Hn1.
  change (inject_Z 0) with 0%Q in Hn0.
  change (inject_Z 10000) with 10000%Q in Hn1.
  assert (inject_Z n / 10000 * 10000 == inject_Z n)%Q as Hy
    by (by apply Qdiv_mult_l).
  set (y := (inject_Z n / 10000)%Q) in *.
  split; [apply Qabs_Qle_condition; split; lra|].
  split; [done|].
  split; [apply float_round_error, Qabs_Qle_condition; split; lra|].
  apply float_round_unit; lra.
Qed.

(** On the distances [k/2000], [k = 0 .. 4000] (every second one puts
    [1 - d/2] half-way between two four-digit decimals), the relevance
    and the score defined here are the ones the binary64 operations of
    the Standard Library's IEEE 754 specification give. *)
Lemma relevance_agrees_with_binary64 (k : Z) :
  (0 ≤ k ≤ 4000)%Z →
  let distance := SFdiv 53 1024 (binary64 k) (binary64 2000) in
  (SF2Q distance == float_round (inject_Z k / 2000))%Q
  ∧ (SF2Q (binary64_relevance distance)
     == RagService.relevance (SF2Q distance))%Q
  ∧ (SF2Q (binary64_round (binary64_relevance distance) 4)
     == py_round (RagService.relevance (SF2Q distance)) 4)%Q.
Proof.
  intros Hk.
  set (agree := λ k : Z,
    let distance := SFdiv 53 1024 (binary64 k) (binary64 2000) in
    let relevance := binary64_relevance distance in
    let relevance' := RagService.relevance (SF2Q distance) in
    Qeq_bool (SF2Q distance) (float_round (inject_Z k / 2000))
    && Qeq_bool (SF2Q relevance) relevance'
    && Qeq_bool (SF2Q (binary64_round relevance 4)) (py_round relevance' 4)).
  assert (forallb agree (seqZ 0 4001) = true) as Hall
    by (vm_compute; reflexivity).
  rewrite forallb_forall in Hall.
  assert (agree k = true) as Hagree.
  { apply Hall, list_elem_of_In, elem_of_seqZ. lia. }
  unfold agree in Hagree. cbv zeta in Hagree.
  apply andb_prop in Hagree as [Hagree Hscore].
  apply andb_prop in Hagree as [Hdistance Hrelevance].
  by rewrite !Qeq_bool_iff in *.
Qed.

(** The score is the rounding of the computed relevance: at the float
    nearest to 0.0001 the subtraction gives a float just above 0.99995,
    and the score is 1.0, although the real number [1 - d/2] is just
    below 0.99995; at the float nearest to 0.0005 the score is the float
    nearest to 0.9998. *)
Lemma relevance_score_near_ties :
  let d := float_round (1 # 10000) in
  py_round (RagService.relevance d) 4 = 1%Q
  ∧ (19999 # 20000 < RagService.relevance d)%Q
  ∧ (1 - d / 2 < 19999 # 20000)%Q
  ∧ py_round (RagService.relevance (float_round (5 # 10000))) 4
    = float_round (9998 # 10000).
Proof. vm_compute. done. Qed.

(** C5.  In a successful query, the [i]-th source carries the relevance
    score computed from the [i]-th distance [d] the search returned:
    [round(1.0 - d / 2.0, 4)] in float arithmetic.  For [d] in [0, 2] the
    computed relevance is within [2^-52] of the real number [1 - d/2]; the
    score is the float nearest to the four-digit decimal [n / 10000]
    nearest to the computed relevance, so it is within
    [1/20000 + 2^-51] of [1 - d/2]; it lies in [0, 1]; it is 1.0 for
    [d = 0] and 0.0 for [d = 2]. *)
Theorem relevance_score_of_result
    self question ids k w q w1 results w2 resp w' distances0 i d s :
  EmbeddingService.generate_embedding (RagService._embedding_service self)
    question w = (inr q, w1) →
  VectorStoreService.query (RagService._vector_store self) q k ids w1
  = (inr results, w2) →
  RagService.query self question ids k w = (inr resp, w') →
  r_distances results !! 0 = Some distances0 →
  distances0 !! i = Some d →
  models.sources resp !! i = Some s →
  (0 <= d)%Q → (d <= 2)%Q →
  let score := models.relevance_score s in
  let relevance := RagService.relevance d in
  score = py_round relevance 4
  ∧ (Qabs (relevance - (1 - d / 2)) <= 2 ^ (-52))%Q
  ∧ (∃ n : Z, n = round_half_even (relevance * 10000)
              ∧ (0 ≤ n ≤ 10000)%Z
              ∧ (Qabs (inject_Z n / 10000 - relevance) <= 1 # 20000)%Q
              ∧ score = float_round (inject_Z n / 10000))
  ∧ (Qabs (score - (1 - d / 2)) <= (1 # 20000) + 2 ^ (-51))%Q
  ∧ (0 <= score)%Q ∧ (score <= 1)%Q
  ∧ ((d == 0)%Q → score = 1%Q)
  ∧ ((d == 2)%Q → score = 0%Q).
Proof.
  intros Hembed Hsearch Hquery Hd0 Hd Hs Hlo Hhi score relevance.
  assert (score = py_round relevance 4) as Hscore.
  { rewrite generate_embedding_run in Hembed. injection Hembed as Hq <-.
    apply vector_store_query_inr in Hsearch. cbv zeta in Hsearch.
    destruct Hsearch as (_ & Hresults & _ & _). subst results.
    simpl in Hd0. injection Hd0 as <-.
    apply list_lookup_fmap_Some in Hd as (e & -> & He).
    apply query_inr in Hquery as (q' & Hq' & _ & Hrep & _).
    rewrite Hq in Hq'. injection Hq' as <-.
    simpl in He.
    destruct (Forall2_lookup_l _ _ _ _ _ Hrep He) as (s' & Hs' & _ & _ & Hr & _).
    rewrite Hs in Hs'. injection Hs' as <-. exact Hr. }
  destruct (relevance_spec d Hlo Hhi) as (Hr0 & Hr1 & Hreal).
  fold relevance in Hr0, Hr1, Hreal.
  destruct (py_round_4_spec relevance Hr0 Hr1)
    as (n & Hn & Hrange & Hdecimal & Hfloat & Hback & H0 & H1).
  rewrite <- Hscore in Hfloat, Hback, H0, H1.
  split; [done|]. split; [done|].
  split; [by exists n|].
  split.
  { rewrite Qabs_Qle_condition in Hreal, Hdecimal, Hback.
    assert (2 ^ (-52) == 2 * 2 ^ (-53))%Q as Hpow2 by reflexivity.
    assert (2 ^ (-51) == 4 * 2 ^ (-53))%Q as Hpow4 by reflexivity.
    pose proof (pow2_pos (-53)) as Hp.
    rewrite Hpow2 in Hreal. set (p := (2 ^ (-53))%Q) in *.
    apply Qabs_Qle_condition. rewrite Hpow4. split; lra. }
  split; [done|]. split; [done|].
  split; intros Heq; rewrite Hscore; unfold relevance.
  - by rewrite (relevance_proper d 0).
  - by rewrite (relevance_proper d 2).
Qed.

Lemma relevance_score_of_result_witness :
  let w := Demo.indexed "A" "a much longer text" None empty_world in
  ∃ resp w' s,
    RagService.query (Demo.rag_service Demo.client) "hello" None 3 w
    = (inr resp, w')
    ∧ models.sources resp !! 0 = Some s
    ∧ models.relevance_score s = py_round (RagService.relevance (13 # 10)) 4
    ∧ models.relevance_score s = float_round (35 # 100).
Proof.
  intros w. eexists _, _, _.
  split; [vm_compute; reflexivity|]. split; [reflexivity|].
  split; [|reflexivity].
  refine (proj1 (relevance_score_of_result (Demo.rag_service Demo.client)
            "hello" None 3 w [5%Q; 1%Q]
            (World (chroma w) (calls w ++ [OllamaEmbeddings "hello"]))
            (QueryResult [["A_chunk_0"]] [["a much longer text"]]
               [[chunk_metadata "A" 0 None]] [[(13 # 10)%Q]])
            (World (chroma w)
               (calls w ++ [OllamaEmbeddings "hello"; ChromaQuery 3 None]))
            _ _ [(13 # 10)%Q] 0 (13 # 10)%Q _ _ _ _ _ _ _ _ _));
    try (vm_compute; reflexivity); vm_compute; discriminate.
Defined.

(** ** Re-indexing *)

(** C2.  [index_document("a", "first text", {"document_id": "b"})] on an
    empty collection, then [index_document("a", "second text")]: the
    delete of the second call looks for records whose metadata
    [document_id] is ["a"], finds none (the stored one says ["b"]) and
    deletes nothing; the insert then meets the id ["a_chunk_0"] already
    stored.  Afterwards the collection still holds the chunk of the first
    call and none of the second, although the second call reported one
    chunk indexed. *)
Lemma reindex_after_shadowed_document_id :
  let service := Demo.rag_service Demo.client in
  let shadow : option (gmap string scalar) :=
    Some {[ "document_id" := SStr "b" ]} in
  ∃ w1 w2,
    RagService.index_document service "a" "first text" shadow empty_world
    = (inr 1, w1)
    ∧ RagService.index_document service "a" "second text" None w1
      = (inr 1, w2)
    ∧ new_calls w1 w2
      = [ChromaGet (Some (WhereEq "document_id" (SStr "a")));
         OllamaEmbeddings "second text"; ChromaAdd ["a_chunk_0"]]
    ∧ e_id <$> c_entries (chroma w2) = ["a_chunk_0"]
    ∧ e_document <$> c_entries (chroma w2) = ["first text"]
    ∧ chunks_of "a" (chroma w2) = [].
Proof.
  intros service shadow. eexists _, _.
  split; [vm_compute; reflexivity|].
  split; [vm_compute; reflexivity|].
  repeat split; vm_compute; reflexivity.
Qed.

(** *** Chunk ids determine their document *)

Lemma string_app_assoc (s1 s2 s3 : string) :
  (s1 +:+ s2) +:+ s3 = s1 +:+ s2 +:+ s3.
Proof.
  induction s1 as [|a s1 IH]; [done|].
  change (String a ((s1 +:+ s2) +:+ s3) = String a (s1 +:+ s2 +:+ s3)).
  by rewrite IH.
Qed.

Lemma has_char_app_cons c s t : has_char c (s +:+ String c t) = true.
Proof.
  induction s as [|a s IH].
  - change (bool_decide (c = c) || has_char c t = true).
    by rewrite bool_decide_eq_true_2.
  - change (bool_decide (a = c) || has_char c (s +:+ String c t) = true).
    rewrite IH. apply orb_true_r.
Qed.

(** Two strings cut at their last occurrence of [c] agree piecewise. *)
Lemma app_last_char_inj c a : ∀ b p q,
  has_char c p = false → has_char c q = false →
  a +:+ String c p = b +:+ String c q → a = b ∧ p = q.
Proof.
  induction a as [|x a IH]; intros [|y b] p q Hp Hq Heq.
  - by injection Heq as ->.
  - change (String c p = String y (b +:+ String c q)) in Heq.
    injection Heq as _ ->. by rewrite has_char_app_cons in Hp.
  - change (String x (a +:+ String c p) = String c q) in Heq.
    injection Heq as _ <-. by rewrite has_char_app_cons in Hq.
  - change (String x (a +:+ String c p) = String y (b +:+ String c q)) in Heq.
    injection Heq as -> Heq. apply IH in Heq as [-> ->]; done.
Qed.

Lemma pretty_N_char_no_underscore x :
  bool_decide (pretty_N_char x = "_"%char) = false.
Proof.
  apply bool_decide_eq_false. unfold pretty_N_char.
  repeat case_match; discriminate.
Qed.

Lemma pretty_N_go_no_underscore x : ∀ s,
  has_char "_" s = false → has_char "_" (pretty_N_go x s) = false.
Proof.
  induction (N.lt_wf_0 x) as [x _ IH]; intros s Hs.
  destruct (decide (x = 0)%N) as [->|Hx]; [by rewrite pretty_N_go_0|].
  rewrite pretty_N_go_step by lia. apply IH.
  - apply N.div_lt; lia.
  - simpl. by rewrite pretty_N_char_no_underscore.
Qed.

Lemma pretty_nat_no_underscore (i : nat) : has_char "_" (pretty i) = false.
Proof.
  unfold pretty, pretty_nat, pretty, pretty_N.
  case_decide; [done|]. by apply pretty_N_go_no_underscore.
Qed.

Lemma chunk_id_inj d i d' i' :
  chunk_id d i = chunk_id d' i' → d = d' ∧ i = i'.
Proof.
  unfold chunk_id.
  change ("_chunk_" +:+ pretty i) with ("_chunk" +:+ String "_" (pretty i)).
  change ("_chunk_" +:+ pretty i') with ("_chunk" +:+ String "_" (pretty i')).
  rewrite <- !string_app_assoc. intros Heq.
  apply app_last_char_inj in Heq as [Hd Hi];
    [|apply pretty_nat_no_underscore..].
  split; [|by apply (inj pretty)].
  change (d +:+ String "_" "chunk" = d' +:+ String "_" "chunk") in Hd.
  by apply app_last_char_inj in Hd as [-> _].
Qed.

(** *** Records written by [add_chunks] *)

Lemma zip_entries_fmap ids : ∀ embeddings documents metadatas,
  length embeddings = length ids →
  length documents = length ids →
  length metadatas = length ids →
  let new := Chroma.zip_entries ids embeddings documents metadatas in
  e_id <$> new = ids ∧ e_document <$> new = documents
  ∧ e_metadata <$> new = metadatas.
Proof.
  induction ids as [|i ids IH];
    intros [|v embeddings] [|c documents] [|m metadatas] Hv Hc Hm;
    try done.
  simpl in Hv, Hc, Hm.
  destruct (IH embeddings documents metadatas) as (H1 & H2 & H3); [lia..|].
  cbv zeta in H1, H2, H3 |- *. unfold Chroma.zip_entries in *.
  repeat split; simpl; f_equal; assumption.
Qed.

Lemma insert_new_fresh new : ∀ es,
  NoDup (e_id <$> new) →
  (∀ i, i ∈ e_id <$> new → i ∉ e_id <$> es) →
  Chroma.insert_new es new = es ++ new.
Proof.
  induction new as [|e new IH]; intros es Hnodup Hfresh; simpl.
  - by rewrite app_nil_r.
  - apply NoDup_cons in Hnodup as [Hnotin Hnodup].
    unfold Chroma.has_id. rewrite bool_decide_eq_false_2.
    2:{ apply Hfresh. left. }
    rewrite IH; [by rewrite <- app_assoc|done|].
    intros i Hi. rewrite fmap_app. apply not_elem_of_app. split.
    + apply Hfresh. by right.
    + simpl. intros ->%list_elem_of_singleton. done.
Qed.

(** The shape of a successful [add_chunks]. *)
Lemma add_chunks_inr self d chunks embeddings metadata w n w' :
  VectorStoreService.add_chunks self d chunks embeddings metadata w
  = (inr n, w') →
  let ids := chunk_id d <$> seq 0 (length chunks) in
  let metadatas :=
    (λ i, chunk_metadata d i metadata) <$> seq 0 (length chunks) in
  n = length chunks
  ∧ length embeddings = length chunks
  ∧ c_entries (chroma w')
    = Chroma.insert_new (c_entries (chroma w))
        (Chroma.zip_entries ids embeddings chunks metadatas).
Proof.
  unfold VectorStoreService.add_chunks. rewrite M_bind_run.
  unfold chroma_call, Chroma.add.
  destruct (VectorStoreService.storage_fault self (calls w)); [done|].
  case_bool_decide; [done|]. simpl.
  case_bool_decide as Hlen; [|done]. simpl.
  destruct (negb (bool_decide (NoDup _))); [done|].
  destruct (negb (Chroma.dimensions_ok _ _)); [done|]. simpl.
  intros [= <- <-]. simpl. destruct Hlen as (Hlen & _ & _).
  rewrite length_fmap, length_seq in Hlen. done.
Qed.

Lemma chunk_ids_NoDup d n : NoDup (chunk_id d <$> seq 0 n).
Proof.
  apply NoDup_fmap_2_strong; [|apply NoDup_seq].
  intros i j _ _ Heq. by apply chunk_id_inj in Heq as [_ ?].
Qed.

(** The records a batch consists of: one per chunk, in order, with the
    derived id and the metadata of [chunk_metadata]. *)
Lemma new_entries_spec d metadata chunks embeddings :
  length embeddings = length chunks →
  let new :=
    Chroma.zip_entries (chunk_id d <$> seq 0 (length chunks)) embeddings
      chunks ((λ i, chunk_metadata d i metadata) <$> seq 0 (length chunks)) in
  e_document <$> new = chunks
  ∧ NoDup (e_id <$> new)
  ∧ ∀ e, e ∈ new →
      ∃ i, e_id e = chunk_id d i ∧ e_metadata e = chunk_metadata d i metadata.
Proof.
  intros Hlen new.
  destruct (zip_entries_fmap (chunk_id d <$> seq 0 (length chunks)) embeddings
              chunks ((λ i, chunk_metadata d i metadata) <$> seq 0 (length chunks)))
    as (Hids & Hdocs & Hmetas);
    [by rewrite ?length_fmap, ?length_seq..|].
  fold new in Hids, Hdocs, Hmetas.
  split; [done|]. split; [rewrite Hids; apply chunk_ids_NoDup|].
  intros e [j He]%list_elem_of_lookup.
  assert ((e_id <$> new) !! j = Some (e_id e)) as Hid
    by (by rewrite list_lookup_fmap, He).
  assert ((e_metadata <$> new) !! j = Some (e_metadata e)) as Hmeta
    by (by rewrite list_lookup_fmap, He).
  rewrite Hids in Hid. rewrite Hmetas in Hmeta.
  apply list_lookup_fmap_Some in Hid as (i & Hi & Hseq).
  apply list_lookup_fmap_Some in Hmeta as (i' & Hi' & Hseq').
  rewrite Hseq in Hseq'. injection Hseq' as <-. by exists i.
Qed.

(** *** Re-indexing with metadata that keeps the derived [document_id] *)

(** In a consistent collection, deleting by the ids of a document's
    records removes the records of that document and no other. *)
Lemma delete_document_entries self d w n w' :
  consistent (chroma w) →
  VectorStoreService.delete_document self d w = (inr n, w') →
  c_entries (chroma w')
  = filter (λ e, e_metadata e !! "document_id" ≠ Some (SStr d))
      (c_entries (chroma w)).
Proof.
  intros Hcons.
  assert (∀ e, e ∈ c_entries (chroma w) →
            e_id e ∉ Chroma.get_ids
                       (Some (WhereEq "document_id" (SStr d))) (chroma w)
            ↔ e_metadata e !! "document_id" ≠ Some (SStr d)) as Hiff.
  { intros e He. unfold Chroma.get_ids. split.
    - intros Hout Hd. apply Hout, list_elem_of_fmap. exists e.
      split; [done|]. apply list_elem_of_filter. split; [|done].
      by apply bool_decide_eq_true.
    - intros Hd Hin. apply list_elem_of_fmap in Hin as (e0 & Hid & He0).
      apply list_elem_of_filter in He0 as [Hd0 He0].
      apply bool_decide_eq_true in Hd0.
      destruct (Hcons e He) as (d1 & i1 & Hid1 & Hd1).
      destruct (Hcons e0 He0) as (d2 & i2 & Hid2 & Hd2).
      rewrite Hid1, Hid2 in Hid. apply chunk_id_inj in Hid as [-> _].
      rewrite Hd2 in Hd0. injection Hd0 as ->. done. }
  assert (filter (λ e, e_id e ∉ Chroma.get_ids
                         (Some (WhereEq "document_id" (SStr d))) (chroma w))
            (c_entries (chroma w))
          = filter (λ e, e_metadata e !! "document_id" ≠ Some (SStr d))
              (c_entries (chroma w))) as Hfilter.
  { revert Hiff. generalize (Chroma.get_ids
      (Some (WhereEq "document_id" (SStr d))) (chroma w)).
    induction (c_entries (chroma w)) as [|e l IH]; intros ids Hiff; [done|].
    rewrite !filter_cons.
    rewrite IH by (intros; apply Hiff; by right).
    specialize (Hiff e ltac:(left)).
    destruct (decide (e_id e ∉ ids)), (decide (_ ≠ _)); tauto. }
  unfold VectorStoreService.delete_document. run.
  destruct (VectorStoreService.storage_fault self (calls w)); [done|].
  simpl. case_bool_decide as Hcount; simpl.
  - destruct (VectorStoreService.storage_fault self _); [done|].
    intros [= _ <-]. simpl. exact Hfilter.
  - intros [= _ <-]. simpl. rewrite <- Hfilter.
    assert (Chroma.get_ids (Some (WhereEq "document_id" (SStr d))) (chroma w)
            = []) as Hnil.
    { apply nil_length_inv. lia. }
    rewrite Hnil. symmetry. apply filter_all.
    intros e _. apply not_elem_of_nil.
Qed.

Lemma chunks_of_other_after_delete d d' (l : list entry) :
  d' ≠ d →
  filter (λ e, e_metadata e !! "document_id" = Some (SStr d'))
    (filter (λ e, e_metadata e !! "document_id" ≠ Some (SStr d)) l)
  = filter (λ e, e_metadata e !! "document_id" = Some (SStr d')) l.
Proof.
  intros Hne. rewrite list_filter_filter. apply list_filter_iff.
  intros e. split; [tauto|]. intros He. split; [done|].
  rewrite He. congruence.
Qed.

(** After a successful [index_document] on a consistent collection, with
    metadata that does not carry a [document_id] key, the document has
    exactly the chunks of this call, in order; the chunks of every other
    document are untouched and the collection is consistent again. *)
Theorem reindex_replaces self d content metadata w n w' :
  consistent (chroma w) →
  or_empty metadata !! "document_id" = None →
  RagService.index_document self d content metadata w = (inr n, w') →
  ∃ chunks,
    splitter_split_text
      (EmbeddingService._splitter (RagService._embedding_service self)) content
    = inr chunks
    ∧ n = length chunks
    ∧ e_document <$> chunks_of d (chroma w') = chunks
    ∧ (∀ d', d' ≠ d → chunks_of d' (chroma w') = chunks_of d' (chroma w))
    ∧ consistent (chroma w').
Proof.
  intros Hcons Hkey. unfold RagService.index_document.
  rewrite M_bind_run.
  destruct (VectorStoreService.delete_document _ d w) as [[|n0] w1] eqn:Hdel;
    [done|].
  pose proof (delete_document_entries _ _ _ _ _ Hcons Hdel) as Hentries1.
  apply delete_document_inr in Hdel as [_ Hnone].
  assert (consistent (chroma w1)) as Hcons1.
  { intros e He. rewrite Hentries1 in He.
    apply list_elem_of_filter in He as [_ He]. by apply Hcons. }
  assert (∀ d', d' ≠ d → chunks_of d' (chroma w1) = chunks_of d' (chroma w))
    as Hothers1.
  { intros d' Hne. unfold chunks_of. rewrite Hentries1.
    by apply chunks_of_other_after_delete. }
  rewrite M_bind_run, split_text_run.
  destruct (splitter_split_text _ content) as [|chunks]; [done|].
  exists chunks. split; [done|]. revert H. case_bool_decide as Hempty.
  - intros [= <- <-]. subst chunks. rewrite Hnone. done.
  - rewrite M_bind_run.
    destruct (EmbeddingService.generate_embeddings _ chunks w1)
      as [[|embeddings] w2] eqn:Hembed; [done|].
    apply generate_embeddings_chroma in Hembed.
    rewrite M_bind_run.
    destruct (VectorStoreService.add_chunks _ d chunks embeddings metadata w2)
      as [[|count] w3] eqn:Hadd; [done|].
    intros [= <- <-].
    apply add_chunks_inr in Hadd. cbv zeta in Hadd.
    destruct Hadd as (-> & Hlen & Hentries3).
    destruct (new_entries_spec d metadata chunks embeddings Hlen)
      as (Hdocs & Hnodup & Hnew).
    rewrite Hembed in Hentries3.
    rewrite insert_new_fresh in Hentries3; [|done|].
    2:{ intros i Hi Hold.
        apply list_elem_of_fmap in Hi as (e & -> & He).
        apply list_elem_of_fmap in Hold as (e1 & Hid & He1).
        destruct (Hnew e He) as (j & Hj & _).
        destruct (Hcons1 e1 He1) as (d1 & i1 & Hid1 & Hd1).
        rewrite Hj, Hid1 in Hid. apply chunk_id_inj in Hid as [-> _].
        assert (e1 ∈ chunks_of d1 (chroma w1)) as Hin
          by (by apply list_elem_of_filter).
        rewrite Hnone in Hin. by apply not_elem_of_nil in Hin. }
    assert (∀ e, e ∈ Chroma.zip_entries (chunk_id d <$> seq 0 (length chunks))
                       embeddings chunks
                       ((λ i, chunk_metadata d i metadata)
                          <$> seq 0 (length chunks)) →
              e_metadata e !! "document_id" = Some (SStr d)) as Hmeta.
    { intros e He. destruct (Hnew e He) as (j & _ & ->).
      by apply chunk_metadata_derived. }
    split; [done|]. split; [|split].
    + unfold chunks_of in *. rewrite Hentries3, filter_app, Hnone. simpl.
      rewrite filter_all by done. exact Hdocs.
    + intros d' Hne. rewrite <- Hothers1 by done.
      unfold chunks_of. rewrite Hentries3, filter_app.
      rewrite (filter_none _ (Chroma.zip_entries _ _ _ _)).
      * by rewrite app_nil_r.
      * intros e He Hd'. rewrite (Hmeta e He) in Hd'. congruence.
    + intros e He. rewrite Hentries3 in He.
      apply elem_of_app in He as [He|He]; [by apply Hcons1|].
      destruct (Hnew e He) as (j & Hj & _). exists d, j.
      split; [done|]. by apply Hmeta.
Qed.

Lemma consistent_empty : consistent empty_collection.
Proof. intros e He. by apply not_elem_of_nil in He. Qed.

(** Two generations of one document, both indexed with metadata that
    keeps the derived [document_id]: after the second call the document
    has the chunks of the second call only. *)
Corollary reindex_twice self d content1 metadata1 content2 metadata2
    w n1 w1 n2 w2 :
  consistent (chroma w) →
  or_empty metadata1 !! "document_id" = None →
  or_empty metadata2 !! "document_id" = None →
  RagService.index_document self d content1 metadata1 w = (inr n1, w1) →
  RagService.index_document self d content2 metadata2 w1 = (inr n2, w2) →
  length (chunks_of d (chroma w2)) = n2
  ∧ splitter_split_text
      (EmbeddingService._splitter (RagService._embedding_service self)) content2
    = inr (e_document <$> chunks_of d (chroma w2)).
Proof.
  intros Hcons Hkey1 Hkey2 Hfirst Hsecond.
  apply reindex_replaces in Hfirst as (_ & _ & _ & _ & _ & Hcons1); [|done..].
  apply reindex_replaces in Hsecond as (chunks & Hsplit & -> & Hdocs & _);
    [|done..].
  rewrite Hdocs. split; [|done]. by rewrite <- Hdocs, length_fmap.
Qed.

Lemma reindex_twice_example :
  let service := Demo.rag_service Demo.client in
  let w2 := Demo.indexed "a" "second text" None
              (Demo.indexed "a" "first text" None empty_world) in
  length (chunks_of "a" (chroma w2)) = 1
  ∧ e_document <$> chunks_of "a" (chroma w2) = ["second text"].
Proof.
  intros service w2.
  destruct (reindex_twice service "a" "first text" None "second text" None
              empty_world 1 (Demo.indexed "a" "first text" None empty_world)
              1 w2 consistent_empty eq_refl eq_refl) as [Hlen Hsplit];
    [vm_compute; reflexivity..|].
  split; [done|]. vm_compute. reflexivity.
Defined.

(** * Further properties of the services *)

(** ** Derived chunk ids *)

(** Two chunks share an id only when they are the same chunk of the same
    document, whatever characters the document ids contain. *)
Theorem chunk_ids_never_collide d i d' i' :
  chunk_id d i = chunk_id d' i' ↔ d = d' ∧ i = i'.
Proof.
  split; [apply chunk_id_inj|]. by intros [-> ->].
Qed.

(** ** [delete_document] *)

Lemma get_ids_chunks_of d c :
  Chroma.get_ids (Some (WhereEq "document_id" (SStr d))) c
  = e_id <$> chunks_of d c.
Proof.
  unfold Chroma.get_ids, chunks_of. f_equal. apply list_filter_iff.
  intros e. simpl. apply bool_decide_eq_true.
Qed.

(** Everything a successful [delete_document] does. *)
Lemma delete_document_run self d w n w' :
  VectorStoreService.delete_document self d w = (inr n, w') →
  let ids := e_id <$> chunks_of d (chroma w) in
  n = length (chunks_of d (chroma w))
  ∧ chroma w' = (if bool_decide (0 < n) then Chroma.delete ids (chroma w)
                 else chroma w)
  ∧ new_calls w w'
    = ChromaGet (Some (WhereEq "document_id" (SStr d)))
      :: (if bool_decide (0 < n) then [ChromaDelete ids] else []).
Proof.
  unfold VectorStoreService.delete_document, new_calls. run.
  destruct (VectorStoreService.storage_fault self (calls w)); [done|].
  simpl. rewrite get_ids_chunks_of, length_fmap.
  case_bool_decide as Hcount; simpl.
  - destruct (VectorStoreService.storage_fault self _); [done|].
    intros [= <- <-]. simpl. rewrite bool_decide_eq_true_2 by done.
    split; [done|]. split; [done|].
    rewrite <- app_assoc. by rewrite drop_app_length.
  - intros [= <- <-]. simpl. rewrite bool_decide_eq_false_2 by done.
    split; [done|]. split; [done|]. by rewrite drop_app_length.
Qed.

(** A successful [delete_document] returns the number of chunks the
    document had and leaves it with none; it keeps the dimension of the
    collection; when the document had no chunk the collection is not
    written at all (only the lookup is made).  In a consistent collection
    the chunks of every other document are kept as they are, and the
    collection stays consistent. *)
Theorem delete_document_spec self d w n w' :
  VectorStoreService.delete_document self d w = (inr n, w') →
  n = length (chunks_of d (chroma w))
  ∧ chunks_of d (chroma w') = []
  ∧ c_dimension (chroma w') = c_dimension (chroma w)
  ∧ (n = 0 →
     chroma w' = chroma w
     ∧ new_calls w w' = [ChromaGet (Some (WhereEq "document_id" (SStr d)))])
  ∧ (consistent (chroma w) →
     consistent (chroma w')
     ∧ ∀ d', d' ≠ d → chunks_of d' (chroma w') = chunks_of d' (chroma w)).
Proof.
  intros Hrun.
  pose proof (delete_document_inr _ _ _ _ _ Hrun) as [Hn Hnone].
  pose proof (delete_document_run _ _ _ _ _ Hrun) as (_ & Hchroma & Hcalls).
  cbv zeta in Hchroma, Hcalls.
  split; [done|]. split; [done|]. split; [|split].
  - rewrite Hchroma. by case_bool_decide.
  - intros ->. rewrite Hchroma, Hcalls. by rewrite bool_decide_eq_false_2 by lia.
  - intros Hcons.
    pose proof (delete_document_entries _ _ _ _ _ Hcons Hrun) as Hentries.
    split.
    + intros e He. rewrite Hentries in He.
      apply list_elem_of_filter in He as [_ He]. by apply Hcons.
    + intros d' Hne. unfold chunks_of. rewrite Hentries.
      by apply chunks_of_other_after_delete.
Qed.

Lemma delete_document_spec_witness :
  let w := Demo.indexed "B" "howdy" None
             (Demo.indexed "A" "a much longer text" None empty_world) in
  ∃ w',
    VectorStoreService.delete_document Demo.vector_store "A" w = (inr 1, w')
    ∧ chunks_of "A" (chroma w') = []
    ∧ length (chunks_of "B" (chroma w')) = 1.
Proof.
  intros w. eexists. split; [vm_compute; reflexivity|].
  split.
  - refine (proj1 (proj2 (delete_document_spec Demo.vector_store "A" w 1 _ _))).
    vm_compute; reflexivity.
  - vm_compute; reflexivity.
Defined.

(** Deleting a document twice: the second call finds nothing, returns 0
    and leaves the collection as the first call left it. *)
Theorem delete_document_idempotent self d w n w1 m w2 :
  VectorStoreService.delete_document self d w = (inr n, w1) →
  VectorStoreService.delete_document self d w1 = (inr m, w2) →
  m = 0 ∧ chroma w2 = chroma w1
  ∧ new_calls w1 w2 = [ChromaGet (Some (WhereEq "document_id" (SStr d)))].
Proof.
  intros Hfirst Hsecond.
  apply delete_document_inr in Hfirst as [_ Hnone].
  apply delete_document_run in Hsecond. cbv zeta in Hsecond.
  destruct Hsecond as (Hm & Hchroma & Hcalls).
  rewrite Hnone in Hm. simpl in Hm. subst m.
  rewrite Hchroma, Hcalls. done.
Qed.

Lemma delete_document_idempotent_witness :
  let w := Demo.indexed "A" "a much longer text" None empty_world in
  let w1 := (VectorStoreService.delete_document Demo.vector_store "A" w).2 in
  let w2 := (VectorStoreService.delete_document Demo.vector_store "A" w1).2 in
  VectorStoreService.delete_document Demo.vector_store "A" w = (inr 1, w1)
  ∧ VectorStoreService.delete_document Demo.vector_store "A" w1 = (inr 0, w2)
  ∧ chroma w2 = chroma w1.
Proof.
  intros w w1 w2. split; [vm_compute; reflexivity|].
  split; [vm_compute; reflexivity|].
  refine (proj1 (proj2 (delete_document_idempotent Demo.vector_store "A" w
                          1 w1 0 w2 _ _)));
    vm_compute; reflexivity.
Defined.

(** ** [index_document], step by step *)

Lemma delete_document_calls self d w n w' :
  VectorStoreService.delete_document self d w = (inr n, w') →
  calls w' = calls w ++ new_calls w w'.
Proof.
  unfold VectorStoreService.delete_document, new_calls. run.
  destruct (VectorStoreService.storage_fault self (calls w)); [done|].
  simpl. case_bool_decide; simpl.
  - destruct (VectorStoreService.storage_fault self _); [done|].
    intros [= _ <-]. simpl. rewrite <- app_assoc. by rewrite drop_app_length.
  - intros [= _ <-]. simpl. by rewrite drop_app_length.
Qed.

Lemma add_chunks_calls self d chunks embeddings metadata w n w' :
  VectorStoreService.add_chunks self d chunks embeddings metadata w
  = (inr n, w') →
  calls w' = calls w ++ [ChromaAdd (chunk_id d <$> seq 0 (length chunks))].
Proof.
  unfold VectorStoreService.add_chunks. rewrite M_bind_run.
  unfold chroma_call.
  destruct (VectorStoreService.storage_fault self (calls w)); [done|].
  destruct (_ ≫= _) as [|[[] c']]; [done|]. by intros [= _ <-].
Qed.

(** The steps of a successful [index_document]. *)
Lemma index_document_steps self d content metadata w n w' :
  RagService.index_document self d content metadata w = (inr n, w') →
  ∃ n0 w1 chunks,
    VectorStoreService.delete_document (RagService._vector_store self) d w
    = (inr n0, w1)
    ∧ splitter_split_text
        (EmbeddingService._splitter (RagService._embedding_service self))
        content = inr chunks
    ∧ n = length chunks
    ∧ (chunks = [] → w' = w1)
    ∧ (chunks ≠ [] →
       ∃ embeddings w2,
         EmbeddingService.generate_embeddings
           (RagService._embedding_service self) chunks w1
         = (inr embeddings, w2)
         ∧ VectorStoreService.add_chunks (RagService._vector_store self)
             d chunks embeddings metadata w2 = (inr n, w')).
Proof.
  unfold RagService.index_document. rewrite M_bind_run.
  destruct (VectorStoreService.delete_document _ d w) as [[|n0] w1] eqn:Hdel;
    [done|].
  rewrite M_bind_run, split_text_run.
  destruct (splitter_split_text _ content) as [|chunks]; [done|].
  intros Hrun. exists n0, w1, chunks. split; [done|]. split; [done|].
  revert Hrun. case_bool_decide as Hempty.
  - intros [= <- <-]. subst chunks. done.
  - rewrite M_bind_run.
    destruct (EmbeddingService.generate_embeddings _ chunks w1)
      as [[|embeddings] w2] eqn:Hembed; [done|].
    rewrite M_bind_run.
    destruct (VectorStoreService.add_chunks _ d chunks embeddings metadata w2)
      as [[|count] w3] eqn:Hadd; [done|].
    intros [= <- <-].
    pose proof (add_chunks_inr _ _ _ _ _ _ _ _ Hadd) as (-> & _).
    split; [done|]. split; [done|]. intros _. by exists embeddings, w2.
Qed.

(** The calls of a successful [index_document], in order: the lookup of
    the document's records, their deletion when there are any, then, unless
    the text gave no chunk, one embedding call per chunk and one insertion
    under the ids [d_chunk_0 ... d_chunk_(n-1)].  The result is the number
    of chunks; a text without chunks costs no embedding and no insertion. *)
Theorem index_document_calls self d content metadata w n w' :
  RagService.index_document self d content metadata w = (inr n, w') →
  ∃ chunks,
    splitter_split_text
      (EmbeddingService._splitter (RagService._embedding_service self)) content
    = inr chunks
    ∧ n = length chunks
    ∧ new_calls w w'
      = ChromaGet (Some (WhereEq "document_id" (SStr d)))
        :: (if bool_decide (chunks_of d (chroma w) = []) then []
            else [ChromaDelete (e_id <$> chunks_of d (chroma w))])
        ++ (if bool_decide (chunks = []) then []
            else (OllamaEmbeddings <$> chunks)
                 ++ [ChromaAdd (chunk_id d <$> seq 0 n)]).
Proof.
  intros Hrun.
  apply index_document_steps in Hrun
    as (n0 & w1 & chunks & Hdel & Hsplit & -> & Hnil & Hcons).
  exists chunks. split; [done|]. split; [done|].
  pose proof (delete_document_calls _ _ _ _ _ Hdel) as Hcalls1.
  apply delete_document_run in Hdel. cbv zeta in Hdel.
  destruct Hdel as (Hn0 & _ & Hnew1).
  assert (new_calls w w1
          = ChromaGet (Some (WhereEq "document_id" (SStr d)))
            :: (if bool_decide (chunks_of d (chroma w) = []) then []
                else [ChromaDelete (e_id <$> chunks_of d (chroma w))])) as Hnew.
  { rewrite Hnew1. f_equal. subst n0.
    by destruct (chunks_of d (chroma w)). }
  rewrite app_comm_cons, <- Hnew. clear Hnew Hnew1.
  remember (new_calls w w1) as deleting eqn:Hdeleting.
  case_bool_decide as Hempty.
  - rewrite (Hnil Hempty), app_nil_r. by subst deleting.
  - destruct (Hcons Hempty) as (embeddings & w2 & Hembed & Hadd).
    apply add_chunks_calls in Hadd.
    pose proof (generate_embeddings_loop_spec
                  (RagService._embedding_service self) chunks [] w1) as Hloop.
    unfold EmbeddingService.generate_embeddings in Hembed.
    rewrite Hembed in Hloop. destruct Hloop as (_ & _ & _ & _ & Hcalls2 & _).
    clear Hdeleting. unfold new_calls. rewrite Hadd, Hcalls2.
    rewrite Hcalls1, <- !app_assoc. by rewrite drop_app_length.
Qed.

Lemma index_document_calls_witness :
  let w := Demo.indexed "A" "first" None empty_world in
  ∃ w',
    RagService.index_document (Demo.rag_service Demo.client) "A" "second" None w
    = (inr 1, w')
    ∧ new_calls w w'
      = [ChromaGet (Some (WhereEq "document_id" (SStr "A")));
         ChromaDelete ["A_chunk_0"]; OllamaEmbeddings "second";
         ChromaAdd ["A_chunk_0"]].
Proof.
  intros w. eexists. split; [vm_compute; reflexivity|].
  destruct (index_document_calls (Demo.rag_service Demo.client) "A" "second"
              None w 1 _ ltac:(vm_compute; reflexivity))
    as (chunks & Hsplit & _ & Hcalls).
  injection Hsplit as <-. exact Hcalls.
Defined.

(** ** What [index_document] stores *)

Lemma zip_entries_lookup ids : ∀ embeddings documents metadatas i e,
  Chroma.zip_entries ids embeddings documents metadatas !! i = Some e →
  ids !! i = Some (e_id e)
  ∧ embeddings !! i = Some (e_embedding e)
  ∧ documents !! i = Some (e_document e)
  ∧ metadatas !! i = Some (e_metadata e).
Proof.
  unfold Chroma.zip_entries.
  induction ids as [|x ids IH];
    intros [|v embeddings] [|c documents] [|m metadatas] i e; try done.
  destruct i as [|i]; simpl.
  - by intros [= <-].
  - apply IH.
Qed.

(** The records of a document after a successful [index_document] on a
    consistent collection, with metadata that keeps the derived
    [document_id]: those of the batch, which was appended whole. *)
Lemma index_document_entries self d content metadata w n w' :
  consistent (chroma w) →
  or_empty metadata !! "document_id" = None →
  RagService.index_document self d content metadata w = (inr n, w') →
  ∃ n0 w1 chunks embeddings,
    VectorStoreService.delete_document (RagService._vector_store self) d w
    = (inr n0, w1)
    ∧ splitter_split_text
        (EmbeddingService._splitter (RagService._embedding_service self))
        content = inr chunks
    ∧ n = length chunks
    ∧ length embeddings = length chunks
    ∧ (∀ i t, chunks !! i = Some t →
         ∃ v, embeddings !! i = Some v
              ∧ answer_at (RagService._embedding_service self) w1 chunks i t
                = inr v)
    ∧ chunks_of d (chroma w')
      = Chroma.zip_entries (chunk_id d <$> seq 0 (length chunks)) embeddings
          chunks
          ((λ i, chunk_metadata d i metadata) <$> seq 0 (length chunks)).
Proof.
  intros Hcons Hkey Hrun.
  apply index_document_steps in Hrun
    as (n0 & w1 & chunks & Hdel & Hsplit & -> & Hnil & Hsome).
  pose proof (delete_document_entries _ _ _ _ _ Hcons Hdel) as Hentries1.
  pose proof (delete_document_inr _ _ _ _ _ Hdel) as [_ Hnone].
  assert (consistent (chroma w1)) as Hcons1.
  { intros e He. rewrite Hentries1 in He.
    apply list_elem_of_filter in He as [_ He]. by apply Hcons. }
  destruct (decide (chunks = [])) as [->|Hne].
  { exists n0, w1, [], []. rewrite (Hnil eq_refl). by repeat split. }
  destruct (Hsome Hne) as (embeddings & w2 & Hembed & Hadd).
  exists n0, w1, chunks, embeddings. split; [done|]. split; [done|].
  split; [done|].
  pose proof (generate_embeddings_loop_spec
                (RagService._embedding_service self) chunks [] w1) as Hloop.
  unfold EmbeddingService.generate_embeddings in Hembed.
  rewrite Hembed in Hloop.
  destruct Hloop as (new & Hnew & Hlen & Hnth & _ & Hchroma2).
  simpl in Hnew. subst new.
  split; [done|]. split; [done|].
  apply add_chunks_inr in Hadd. cbv zeta in Hadd.
  destruct Hadd as (_ & _ & Hentries3).
  destruct (new_entries_spec d metadata chunks embeddings Hlen)
    as (_ & Hnodup & Hnew).
  rewrite Hchroma2 in Hentries3.
  rewrite insert_new_fresh in Hentries3; [|done|].
  2:{ intros i Hi Hold.
      apply list_elem_of_fmap in Hi as (e & -> & He).
      apply list_elem_of_fmap in Hold as (e1 & Hid & He1).
      destruct (Hnew e He) as (j & Hj & _).
      destruct (Hcons1 e1 He1) as (d1 & i1 & Hid1 & Hd1).
      rewrite Hj, Hid1 in Hid. apply chunk_id_inj in Hid as [-> _].
      assert (e1 ∈ chunks_of d1 (chroma w1)) as Hin
        by (by apply list_elem_of_filter).
      rewrite Hnone in Hin. by apply not_elem_of_nil in Hin. }
  unfold chunks_of in *. rewrite Hentries3, filter_app, Hnone. simpl.
  apply filter_all. intros e He. destruct (Hnew e He) as (j & _ & ->).
  by apply chunk_metadata_derived.
Qed.

(** After a successful [index_document] on a consistent collection, with
    metadata that has no [document_id] key, the document has one record
    per chunk, in order.  Record [i] has the id [d_chunk_i], the text of
    chunk [i], the vector the embedding server returned for that very
    chunk, and the metadata [{document_id: d, chunk_index: i}] extended by
    every key of the caller's metadata (a caller's [chunk_index] replaces
    the derived one). *)
Theorem index_document_stores_chunks self d content metadata w n w' :
  consistent (chroma w) →
  or_empty metadata !! "document_id" = None →
  RagService.index_document self d content metadata w = (inr n, w') →
  ∃ chunks,
    splitter_split_text
      (EmbeddingService._splitter (RagService._embedding_service self)) content
    = inr chunks
    ∧ n = length chunks
    ∧ length (chunks_of d (chroma w')) = n
    ∧ ∀ i e, chunks_of d (chroma w') !! i = Some e →
        e_id e = chunk_id d i
        ∧ chunks !! i = Some (e_document e)
        ∧ answer_at (RagService._embedding_service self)
            (VectorStoreService.delete_document
               (RagService._vector_store self) d w).2
            chunks i (e_document e)
          = inr (e_embedding e)
        ∧ e_metadata e !! "document_id" = Some (SStr d)
        ∧ (or_empty metadata !! "chunk_index" = None →
           e_metadata e !! "chunk_index" = Some (SInt (Z.of_nat i)))
        ∧ (∀ k v, or_empty metadata !! k = Some v → e_metadata e !! k = Some v).
Proof.
  intros Hcons Hkey Hrun.
  destruct (index_document_entries _ _ _ _ _ _ _ Hcons Hkey Hrun)
    as (n0 & w1 & chunks & embeddings & Hdel & Hsplit & -> & Hlen & Hembed
        & Hentries).
  exists chunks. split; [done|]. split; [done|].
  destruct (zip_entries_fmap (chunk_id d <$> seq 0 (length chunks)) embeddings
              chunks ((λ i, chunk_metadata d i metadata) <$> seq 0 (length chunks)))
    as (_ & Hdocs & _); [by rewrite ?length_fmap, ?length_seq..|].
  cbv zeta in Hdocs. rewrite <- Hentries in Hdocs.
  split.
  { rewrite <- (length_fmap e_document). by rewrite Hdocs. }
  intros i e He. rewrite Hentries in He.
  apply zip_entries_lookup in He as (Hid & Hv & Hdoc & Hmeta).
  apply list_lookup_fmap_Some in Hid as (j & Hid & Hj).
  apply lookup_seq in Hj as [-> _]. simpl in Hid.
  apply list_lookup_fmap_Some in Hmeta as (j & Hmeta & Hj).
  apply lookup_seq in Hj as [-> _]. simpl in Hmeta.
  split; [done|]. split; [done|]. split; [|split; [|split]].
  - rewrite Hdel. simpl.
    destruct (Hembed i _ Hdoc) as (v & Hv' & Hanswer).
    rewrite Hv in Hv'. by injection Hv' as <-.
  - rewrite Hmeta. by apply chunk_metadata_derived.
  - intros Hindex. rewrite Hmeta. unfold chunk_metadata, dict_update.
    rewrite lookup_union_r by done. by rewrite lookup_insert_eq.
  - intros k v Hk. rewrite Hmeta. unfold chunk_metadata, dict_update.
    by apply lookup_union_Some_l.
Qed.

Lemma index_document_stores_chunks_witness :
  let tags : option (gmap string scalar) := Some {[ "year" := SInt 2024 ]} in
  ∃ w',
    RagService.index_document (Demo.rag_service Demo.client) "A" "hello" tags
      empty_world = (inr 1, w')
    ∧ ∀ e, chunks_of "A" (chroma w') !! 0 = Some e →
        e_id e = "A_chunk_0"
        ∧ e_metadata e !! "chunk_index" = Some (SInt 0)
        ∧ e_metadata e !! "year" = Some (SInt 2024).
Proof.
  intros tags. eexists. split; [vm_compute; reflexivity|].
  intros e He.
  destruct (index_document_stores_chunks (Demo.rag_service Demo.client)
              "A" "hello" tags empty_world 1 _ consistent_empty eq_refl
              ltac:(vm_compute; reflexivity))
    as (chunks & _ & _ & _ & Hall).
  destruct (Hall 0 e He) as (Hid & _ & _ & _ & Hindex & Hkeys).
  split; [exact Hid|]. split; [by apply Hindex|]. by apply Hkeys.
Defined.

(** Indexing one document leaves the chunks of every other document as
    they are and keeps the collection consistent (same conditions). *)
Theorem index_document_keeps_other_documents self d content metadata w n w' :
  consistent (chroma w) →
  or_empty metadata !! "document_id" = None →
  RagService.index_document self d content metadata w = (inr n, w') →
  consistent (chroma w')
  ∧ ∀ d', d' ≠ d → chunks_of d' (chroma w') = chunks_of d' (chroma w).
Proof.
  intros Hcons Hkey Hrun.
  apply reindex_replaces in Hrun as (_ & _ & _ & _ & Hothers & Hcons');
    done.
Qed.

Lemma index_document_keeps_other_documents_witness :
  let w := Demo.indexed "A" "a much longer text" None empty_world in
  let w' := Demo.indexed "B" "howdy" None w in
  chunks_of "A" (chroma w') = chunks_of "A" (chroma w)
  ∧ length (chunks_of "A" (chroma w)) = 1.
Proof.
  intros w w'. split; [|vm_compute; reflexivity].
  assert (consistent (chroma w)) as Hcons.
  { refine (proj1 (index_document_keeps_other_documents
                     (Demo.rag_service Demo.client) "A" "a much longer text"
                     None empty_world 1 w consistent_empty eq_refl _)).
    vm_compute; reflexivity. }
  refine (proj2 (index_document_keeps_other_documents
                   (Demo.rag_service Demo.client) "B" "howdy" None w 1 w'
                   Hcons eq_refl _) "A" _).
  - vm_compute; reflexivity.
  - discriminate.
Defined.

(** ** [RagService.query], step by step *)

Lemma collect_searched results docs : ∀ i sources parts searched out,
  RagService.collect results i docs (sources, parts, searched) = inr out →
  ∃ new,
    out = (sources ++ new, parts ++ docs,
           list_to_set (models.document_id <$> new) ∪ searched).
Proof.
  induction docs as [|doc docs IH]; intros i sources parts searched out; simpl.
  - intros [= <-]. exists []. rewrite !app_nil_r. simpl.
    by rewrite (left_id_L ∅ (∪)).
  - unfold mbind, exn_bind.
    destruct (getitem (r_metadatas results) 0) as [|ms]; [done|].
    destruct (getitem ms i) as [|m]; [done|].
    destruct (getitem (r_distances results) 0) as [|ds]; [done|].
    destruct (getitem ds i) as [|dist]; [done|].
    destruct (dict_getitem m "document_id") as [|doc_id]; [done|].
    destruct (models.SourceChunk_new _ _ _ _) as [|source]; [done|].
    intros Hrest. apply IH in Hrest as (new & ->).
    exists (source :: new). rewrite <- !app_assoc. simpl.
    f_equal. rewrite (assoc_L (∪)). f_equal. apply (comm_L (∪)).
Qed.

Lemma reports_texts space q (hits : list entry) sources :
  Forall2 (reports space q) hits sources →
  e_document <$> hits = models.chunk_text <$> sources.
Proof.
  induction 1 as [|e s hits sources (_ & Htext & _) _ IH]; [done|].
  by rewrite !fmap_cons, Htext, IH.
Qed.

(** Everything a successful [query] does. *)
Lemma query_outcome self question ids k w resp w' :
  RagService.query self question ids k w = (inr resp, w') →
  let space := VectorStoreService.space (RagService._vector_store self) in
  let wf := VectorStoreService.where_filter ids in
  ∃ q,
    answer_at (RagService._embedding_service self) w [] 0 question = inr q
    ∧ Forall2 (reports space q) (Chroma.nearest space q k wf (chroma w))
        (models.sources resp)
    ∧ models.document_ids_searched resp
      = elements (list_to_set (models.document_id <$> models.sources resp)
                  : gset string)
    ∧ ((models.sources resp = []
        ∧ models.answer resp = NO_DOCUMENTS_ANSWER
        ∧ new_calls w w' = [OllamaEmbeddings question; ChromaQuery k wf])
       ∨ (models.sources resp ≠ []
          ∧ ∃ prompt,
              prompt = RAG_PROMPT_TEMPLATE_format
                         (String.concat CONTEXT_SEPARATOR
                            (models.chunk_text <$> models.sources resp))
                         question
              ∧ client_chat (RagService._llm_client self)
                  (calls w ++ [OllamaEmbeddings question; ChromaQuery k wf])
                  (RagService._llm_model self) prompt
                = inr (models.answer resp)
              ∧ new_calls w w'
                = [OllamaEmbeddings question; ChromaQuery k wf;
                   OllamaChat prompt])).
Proof.
  intros Hrun space wf.
  pose proof (query_inr _ _ _ _ _ _ _ Hrun) as (q & Hq & _ & Hrep & _).
  exists q. split; [done|]. split; [done|]. revert Hrun.
  unfold RagService.query. rewrite M_bind_run, generate_embedding_run, Hq.
  rewrite M_bind_run.
  destruct (VectorStoreService.query _ q k ids _) as [[|results] w2] eqn:Hs;
    [done|].
  apply vector_store_query_inr in Hs. cbv zeta in Hs.
  destruct Hs as (_ & Hresults & _ & Hcalls). subst results.
  simpl in Hcalls. rewrite M_bind_run. unfold lift.
  unfold RagService.has_results. cbn [r_ids r_documents chroma]. cbv iota.
  fold space wf. fold space wf in Hrep, Hcalls.
  set (hits := Chroma.nearest space q k wf (chroma w)) in *.
  destruct (decide (hits = [])) as [Hnil|Hsome].
  - rewrite Hnil. simpl. intros [= <- <-]. simpl.
    split; [by rewrite elements_empty|]. left.
    split; [done|]. split; [done|].
    unfold new_calls. rewrite Hcalls, <- app_assoc. by rewrite drop_app_length.
  - rewrite bool_decide_eq_false_2 by (by intros ?%fmap_nil_inv).
    cbn [negb]. unfold mbind at 1, exn_bind at 1.
    change (getitem [e_document <$> hits] 0)
      with (@inr exn _ (e_document <$> hits)).
    cbv iota beta.
    destruct (RagService.collect _ 0 _ _) as [|[[sources parts] searched]] eqn:Hc;
      [done|].
    pose proof (collect_searched _ _ _ _ _ _ _ Hc) as (new & Hout).
    simpl in Hout. injection Hout as -> -> ->.
    assert (e_document <$> hits = models.chunk_text <$> new) as Htexts.
    { apply collect_reports in Hc as [_ Hall]. simpl in Hall.
      by apply reports_texts in Hall. }
    rewrite Htexts.
    rewrite bool_decide_eq_false_2.
    2:{ intros Hnone. rewrite <- Htexts in Hnone.
        by apply fmap_nil_inv in Hnone. }
    rewrite M_bind_run. unfold remote.
    destruct (client_chat _ _ _ _) as [|answer] eqn:Hchat; [done|].
    intros [= <- <-]. simpl.
    split; [by rewrite (right_id_L ∅ (∪))|]. right. split.
    { intros ->. simpl in Htexts. by apply fmap_nil_inv in Htexts. }
    eexists. split; [reflexivity|].
    rewrite Hcalls, <- app_assoc in Hchat. simpl in Hchat.
    split; [done|].
    unfold new_calls. rewrite Hcalls, <- !app_assoc. simpl.
    by rewrite drop_app_length.
Qed.

(** ** What [query] reads, writes and returns *)

(** [query] never writes to the collection, whether it answers or raises. *)
Theorem query_never_writes self question ids k w r w' :
  RagService.query self question ids k w = (r, w') →
  chroma w' = chroma w.
Proof.
  unfold RagService.query. rewrite M_bind_run, generate_embedding_run.
  destruct (answer_at _ w [] 0 question) as [|q]; [by intros [= _ <-]|].
  rewrite M_bind_run.
  assert (∀ r2 w2,
            VectorStoreService.query (RagService._vector_store self) q k ids
              (World (chroma w) (calls w ++ [OllamaEmbeddings question]))
            = (r2, w2) → chroma w2 = chroma w) as Hsearch.
  { intros r2 w2. unfold VectorStoreService.query, chroma_call. simpl.
    destruct (VectorStoreService.storage_fault _ _); [by intros [= _ <-]|].
    destruct (_ ≫= _) as [|[r3 c3]] eqn:Hq; [by intros [= _ <-]|].
    intros [= _ <-]. simpl. unfold mbind, exn_bind in Hq.
    destruct (Chroma.query _ _ _ _ _); [done|]. by injection Hq as _ <-. }
  destruct (VectorStoreService.query _ q k ids _) as [[|results] w2].
  { intros [= _ <-]. by eapply Hsearch. }
  specialize (Hsearch _ _ eq_refl). rewrite M_bind_run. unfold lift.
  destruct (if RagService.has_results results then _ else _)
    as [|[[sources parts] searched]]; [by intros [= _ <-]|].
  case_bool_decide; [by intros [= _ <-]|].
  rewrite M_bind_run. unfold remote.
  destruct (client_chat _ _ _ _); by intros [= _ <-].
Qed.

Lemma query_never_writes_witness :
  let w := Demo.indexed "A" "a much longer text" None empty_world in
  chroma (RagService.query (Demo.rag_service Demo.client) "hello" None 3 w).2
  = chroma w.
Proof.
  intros w.
  apply (query_never_writes (Demo.rag_service Demo.client) "hello" None 3 w
           (RagService.query (Demo.rag_service Demo.client) "hello" None 3 w).1).
  by destruct (RagService.query _ _ _ _ w).
Defined.

(** A successful [query] returns exactly [min(top_k, m)] sources, [m]
    being the number of records that satisfy the filter (all records when
    [document_ids] is absent or empty): never more than asked, and every
    match when there are fewer. *)
Theorem query_source_count self question ids k w resp w' :
  RagService.query self question ids k w = (inr resp, w') →
  length (models.sources resp)
  = Z.to_nat k
    `min` length (filter (λ e, Chroma.where_matches
                                 (VectorStoreService.where_filter ids)
                                 (e_metadata e) = true)
                    (c_entries (chroma w))).
Proof.
  intros Hrun. apply query_inr in Hrun as (q & _ & _ & Hrep & _).
  rewrite <- (Forall2_length _ _ _ Hrep).
  unfold Chroma.nearest. rewrite length_take. f_equal.
  apply Permutation_length, rank_perm.
Qed.

Lemma query_source_count_witness :
  let w := Demo.indexed "B" "howdy" None
             (Demo.indexed "A" "a much longer text" None empty_world) in
  ∃ resp w',
    RagService.query (Demo.rag_service Demo.client) "hello" None 5 w
    = (inr resp, w')
    ∧ length (models.sources resp) = 2.
Proof.
  intros w. eexists _, _. split; [vm_compute; reflexivity|].
  pose proof (query_source_count (Demo.rag_service Demo.client) "hello" None 5
                w _ _ ltac:(vm_compute; reflexivity)) as Hcount.
  rewrite Hcount. vm_compute; reflexivity.
Defined.

(** A successful [query] that found something asked the language model
    exactly once, after the embedding and the search, with the prompt
    built from the template, the texts of the sources in their order
    joined by the separator, and the question; its answer is the model's
    reply. *)
Theorem query_prompt self question ids k w resp w' :
  RagService.query self question ids k w = (inr resp, w') →
  models.sources resp ≠ [] →
  let prompt :=
    RAG_PROMPT_TEMPLATE_format
      (String.concat CONTEXT_SEPARATOR
         (models.chunk_text <$> models.sources resp)) question in
  let before :=
    [OllamaEmbeddings question;
     ChromaQuery k (VectorStoreService.where_filter ids)] in
  new_calls w w' = before ++ [OllamaChat prompt]
  ∧ client_chat (RagService._llm_client self) (calls w ++ before)
      (RagService._llm_model self) prompt
    = inr (models.answer resp).
Proof.
  intros Hrun Hsome prompt before.
  apply query_outcome in Hrun. cbv zeta in Hrun.
  destruct Hrun as (q & _ & _ & _ & [(Hnil & _)|(_ & p & -> & Hchat & Hcalls)]);
    [done|].
  by split.
Qed.

Lemma query_prompt_witness :
  let w := Demo.indexed "B" "howdy" None
             (Demo.indexed "A" "a much longer text" None empty_world) in
  ∃ resp w',
    RagService.query (Demo.rag_service Demo.client) "hello" None 2 w
    = (inr resp, w')
    ∧ new_calls w w'
      = [OllamaEmbeddings "hello"; ChromaQuery 2 None;
         OllamaChat
           (RAG_PROMPT_TEMPLATE_format
              ("howdy" +:+ CONTEXT_SEPARATOR +:+ "a much longer text")
              "hello")].
Proof.
  intros w. eexists _, _. split; [vm_compute; reflexivity|].
  destruct (query_prompt (Demo.rag_service Demo.client) "hello" None 2 w
              _ _ ltac:(vm_compute; reflexivity) ltac:(discriminate))
    as [Hcalls _].
  rewrite Hcalls. vm_compute. reflexivity.
Defined.

(** [document_ids_searched] lists each document of the sources once, and
    nothing else. *)
Theorem query_document_ids_searched self question ids k w resp w' :
  RagService.query self question ids k w = (inr resp, w') →
  NoDup (models.document_ids_searched resp)
  ∧ ∀ d, d ∈ models.document_ids_searched resp
         ↔ ∃ s, s ∈ models.sources resp ∧ models.document_id s = d.
Proof.
  intros Hrun. apply query_outcome in Hrun. cbv zeta in Hrun.
  destruct Hrun as (q & _ & _ & -> & _). split; [apply NoDup_elements|].
  intros d. rewrite elem_of_elements, elem_of_list_to_set, list_elem_of_fmap.
  split; intros (s & ? & ?); by exists s.
Qed.

Lemma query_document_ids_searched_witness :
  let w := Demo.indexed "B" "howdy" None
             (Demo.indexed "A" "a much longer text" None empty_world) in
  ∃ resp w',
    RagService.query (Demo.rag_service Demo.client) "hello" None 5 w
    = (inr resp, w')
    ∧ NoDup (models.document_ids_searched resp)
    ∧ "A" ∈ models.document_ids_searched resp.
Proof.
  intros w. eexists _, _. split; [vm_compute; reflexivity|].
  destruct (query_document_ids_searched (Demo.rag_service Demo.client)
              "hello" None 5 w _ _ ltac:(vm_compute; reflexivity))
    as [Hnodup Hin].
  split; [exact Hnodup|]. apply Hin. eexists. split; [right; left|].
  reflexivity.
Defined.

(** Once [delete_document] has succeeded, a query restricted to that
    document finds nothing: it returns the fixed answer without sources
    and does not call the language model. *)
Theorem deleted_document_not_found self d w n w1 question k resp w2 :
  VectorStoreService.delete_document (RagService._vector_store self) d w
  = (inr n, w1) →
  RagService.query self question (Some [d]) k w1 = (inr resp, w2) →
  models.sources resp = []
  ∧ models.answer resp = NO_DOCUMENTS_ANSWER
  ∧ models.document_ids_searched resp = []
  ∧ new_calls w1 w2
    = [OllamaEmbeddings question;
       ChromaQuery k (Some (WhereEq "document_id" (SStr d)))].
Proof.
  intros Hdel Hrun. apply delete_document_inr in Hdel as [_ Hnone].
  apply query_outcome in Hrun. cbv zeta in Hrun.
  destruct Hrun as (q & _ & Hrep & Hsearched & Hcases).
  assert (models.sources resp = []) as Hsources.
  { destruct (models.sources resp) as [|s sources]; [done|].
    apply Forall2_cons_inv_r in Hrep as (e & hits & _ & _ & Hhits).
    assert (e ∈ chunks_of d (chroma w1)) as Hin.
    { assert (e ∈ e :: hits) as He by left. rewrite <- Hhits in He.
      apply nearest_elem_of in He as [He Hmatch].
      apply list_elem_of_filter. split; [|done].
      by apply bool_decide_eq_true in Hmatch. }
    rewrite Hnone in Hin. by apply not_elem_of_nil in Hin. }
  destruct Hcases as [(_ & Hanswer & Hcalls)|(Hsome & _)]; [|done].
  rewrite Hsearched, Hsources. simpl. by rewrite elements_empty.
Qed.

Lemma deleted_document_not_found_witness :
  let service := Demo.rag_service Demo.client in
  let w := Demo.indexed "A" "a much longer text" None empty_world in
  let w1 := (VectorStoreService.delete_document Demo.vector_store "A" w).2 in
  (∃ resp w', RagService.query service "hello" (Some ["A"]) 3 w = (inr resp, w')
              ∧ length (models.sources resp) = 1)
  ∧ ∃ resp w2,
      RagService.query service "hello" (Some ["A"]) 3 w1 = (inr resp, w2)
      ∧ models.sources resp = [].
Proof.
  intros service w w1. split.
  { eexists _, _. split; vm_compute; reflexivity. }
  eexists _, _. split; [vm_compute; reflexivity|].
  refine (proj1 (deleted_document_not_found service "A" w 1 w1 "hello" 3
                   _ _ _ _));
    vm_compute; reflexivity.
Defined.

(** ** Relevance follows distance *)

Lemma py_round_mono x y n : (x <= y)%Q → (py_round x n <= py_round y n)%Q.
Proof.
  intros Hxy. unfold py_round. apply float_round_mono. unfold Qdiv.
  assert (0 < inject_Z (10 ^ Z.of_nat n))%Q as Hpos.
  { rewrite <- (Zlt_Qlt 0). apply Z.pow_pos_nonneg; lia. }
  apply Qmult_le_compat_r; [|by apply Qlt_le_weak, Qinv_lt_0_compat].
  rewrite <- Zle_Qle. apply round_half_even_mono.
  apply Qmult_le_compat_r; [done|]. by apply Qlt_le_weak.
Qed.

Lemma relevance_antitone d1 d2 :
  (d1 <= d2)%Q → (RagService.relevance d2 <= RagService.relevance d1)%Q.
Proof.
  intros Hd. unfold RagService.relevance. apply float_round_mono.
  cut (float_round (d1 / 2) <= float_round (d2 / 2))%Q; [intros; lra|].
  apply float_round_mono. unfold Qdiv. change (/ 2)%Q with (1 # 2)%Q. lra.
Qed.

(** In a successful [query], a source found at a smaller distance never
    has a smaller relevance score: rounding to four digits keeps the
    order that [1 - d/2] reverses. *)
Theorem query_relevance_follows_distance self question ids k w resp w' :
  RagService.query self question ids k w = (inr resp, w') →
  let space := VectorStoreService.space (RagService._vector_store self) in
  ∃ q,
    answer_at (RagService._embedding_service self) w [] 0 question = inr q
    ∧ ∀ i j ei ej si sj,
        Chroma.nearest space q k (VectorStoreService.where_filter ids)
          (chroma w) !! i = Some ei →
        Chroma.nearest space q k (VectorStoreService.where_filter ids)
          (chroma w) !! j = Some ej →
        models.sources resp !! i = Some si →
        models.sources resp !! j = Some sj →
        (space q (e_embedding ei) <= space q (e_embedding ej))%Q →
        (models.relevance_score sj <= models.relevance_score si)%Q.
Proof.
  intros Hrun space. apply query_inr in Hrun as (q & Hq & _ & Hrep & _).
  exists q. split; [done|]. intros i j ei ej si sj Hei Hej Hsi Hsj Hle.
  destruct (Forall2_lookup_lr _ _ _ _ _ _ Hrep Hei Hsi) as (_ & _ & -> & _).
  destruct (Forall2_lookup_lr _ _ _ _ _ _ Hrep Hej Hsj) as (_ & _ & -> & _).
  by apply py_round_mono, relevance_antitone.
Qed.

Lemma insert_by_sorted (d : entry → Q) e l :
  StronglySorted (λ a b, (d a <= d b)%Q) l →
  StronglySorted (λ a b, (d a <= d b)%Q) (Chroma.insert_by d e l).
Proof.
  induction 1 as [|x l Hsorted IH Hall]; simpl.
  - constructor; constructor.
  - destruct (Qle_bool (d x) (d e)) eqn:Hle.
    + apply Qle_bool_iff in Hle. constructor; [done|].
      apply Forall_forall. intros y Hy. rewrite insert_by_perm in Hy.
      apply elem_of_cons in Hy as [->|Hy]; [done|].
      by eapply Forall_forall in Hall.
    + assert (d e <= d x)%Q as Hex.
      { apply Qnot_lt_le. intros Hlt. apply Qlt_le_weak in Hlt.
        apply Qle_bool_iff in Hlt. congruence. }
      constructor; [by constructor|].
      constructor; [done|].
      apply Forall_forall. intros y Hy.
      eapply Qle_trans; [exact Hex|]. by eapply Forall_forall in Hall.
Qed.

Lemma rank_sorted (d : entry → Q) l :
  StronglySorted (λ a b, (d a <= d b)%Q) (Chroma.rank d l).
Proof.
  induction l as [|e l IH]; simpl; [constructor|]. by apply insert_by_sorted.
Qed.

Lemma StronglySorted_lookup {A} (R : relation A) l i j x y :
  StronglySorted R l → i < j → l !! i = Some x → l !! j = Some y → R x y.
Proof.
  intros Hsorted. revert i j. induction Hsorted as [|z l _ IH Hall];
    intros i j Hij Hi Hj; [done|].
  destruct i as [|i], j as [|j]; try lia; simpl in Hi, Hj.
  - injection Hi as ->. eapply Forall_forall in Hall; [done|].
    by eapply list_elem_of_lookup_2.
  - apply (IH i j); [lia|done..].
Qed.

(** The sources of a successful [query] come in the order of the search,
    nearest first, so their relevance scores never increase along the
    list. *)
Theorem query_sources_ranked self question ids k w resp w' i j si sj :
  RagService.query self question ids k w = (inr resp, w') →
  i ≤ j →
  models.sources resp !! i = Some si →
  models.sources resp !! j = Some sj →
  (models.relevance_score sj <= models.relevance_score si)%Q.
Proof.
  intros Hrun Hij Hsi Hsj.
  destruct (decide (i = j)) as [->|Hne].
  { rewrite Hsi in Hsj. injection Hsj as ->. apply Qle_refl. }
  apply query_inr in Hrun as (q & _ & _ & Hrep & _).
  destruct (Forall2_lookup_r _ _ _ _ _ Hrep Hsi) as (ei & Hei & _ & _ & -> & _).
  destruct (Forall2_lookup_r _ _ _ _ _ Hrep Hsj) as (ej & Hej & _ & _ & -> & _).
  apply py_round_mono, relevance_antitone.
  unfold Chroma.nearest in Hei, Hej.
  apply lookup_take_Some in Hei as [Hei _].
  apply lookup_take_Some in Hej as [Hej _].
  set (dist := λ e, VectorStoreService.space (RagService._vector_store self) q
                      (e_embedding e)) in *.
  pose proof (rank_sorted dist
                (filter (λ e, Chroma.where_matches
                                (VectorStoreService.where_filter ids)
                                (e_metadata e) = true)
                   (c_entries (chroma w)))) as Hsorted.
  apply (StronglySorted_lookup _ _ i j ei ej Hsorted); [lia|done..].
Qed.

Lemma query_sources_ranked_witness :
  let w := Demo.indexed "B" "howdy" None
             (Demo.indexed "A" "a much longer text" None empty_world) in
  ∃ resp w' s0 s1,
    RagService.query (Demo.rag_service Demo.client) "hello" None 5 w
    = (inr resp, w')
    ∧ models.sources resp !! 0 = Some s0
    ∧ models.sources resp !! 1 = Some s1
    ∧ models.document_id s0 = "B" ∧ models.document_id s1 = "A"
    ∧ (models.relevance_score s1 <= models.relevance_score s0)%Q.
Proof.
  intros w. eexists _, _, _, _.
  split; [vm_compute; reflexivity|].
  split; [reflexivity|]. split; [reflexivity|].
  split; [reflexivity|]. split; [reflexivity|].
  eapply (query_sources_ranked (Demo.rag_service Demo.client) "hello" None 5 w
            _ _ 0 1);
    [vm_compute; reflexivity | lia | reflexivity | reflexivity].
Defined.

Lemma query_relevance_follows_distance_witness :
  let w := Demo.indexed "B" "howdy" None
             (Demo.indexed "A" "a much longer text" None empty_world) in
  ∃ resp w' s0 s1,
    RagService.query (Demo.rag_service Demo.client) "hello" None 5 w
    = (inr resp, w')
    ∧ models.sources resp !! 0 = Some s0
    ∧ models.sources resp !! 1 = Some s1
    ∧ (models.relevance_score s1 <= models.relevance_score s0)%Q.
Proof.
  intros w. eexists _, _, _, _.
  split; [vm_compute; reflexivity|].
  split; [reflexivity|]. split; [reflexivity|].
  destruct (query_relevance_follows_distance (Demo.rag_service Demo.client)
              "hello" None 5 w _ _ ltac:(vm_compute; reflexivity))
    as (q & Hq & Hall).
  vm_compute in Hq. injection Hq as <-.
  eapply (Hall 0 1); [vm_compute; reflexivity..|].
  vm_compute. discriminate.
Defined.

(** ** The [document_ids] filter *)

(** The filter built from a non-empty [document_ids] selects the records
    whose [document_id] is one of the ids, whether it is the equality
    filter (one id) or the ["$in"] filter (several). *)
Lemma where_filter_selects (l : list string) (m : gmap string scalar) :
  l ≠ [] →
  Chroma.where_matches (VectorStoreService.where_filter (Some l)) m = true
  ↔ ∃ d, m !! "document_id" = Some (SStr d) ∧ d ∈ l.
Proof.
  intros Hne. split; [by apply where_filter_matches|].
  intros (d & Hd & Hin). destruct l as [|d1 [|d2 l]]; [done| |]; simpl.
  - apply list_elem_of_singleton in Hin as ->. by apply bool_decide_eq_true.
  - rewrite Hd. apply bool_decide_eq_true.
    change (SStr d ∈ SStr <$> d1 :: d2 :: l). by apply list_elem_of_fmap_2.
Qed.

(** Neither the order of [document_ids] nor a repeated id changes what
    the vector store returns. *)
Theorem vector_store_query_ids_as_set self q k (l1 l2 : list string) w :
  (∀ d, d ∈ l1 ↔ d ∈ l2) →
  (VectorStoreService.query self q k (Some l1) w).1
  = (VectorStoreService.query self q k (Some l2) w).1.
Proof.
  intros Hsame.
  assert (∀ e, Chroma.where_matches
                 (VectorStoreService.where_filter (Some l1)) (e_metadata e)
               = Chroma.where_matches
                   (VectorStoreService.where_filter (Some l2)) (e_metadata e))
    as Hmatch.
  { intros e. destruct (decide (l1 = [])) as [->|Hne1].
    - assert (l2 = []) as ->; [|done].
      destruct l2 as [|d l2]; [done|].
      assert (d ∈ @nil string) as Hd by (apply Hsame; left).
      by apply not_elem_of_nil in Hd.
    - assert (l2 ≠ []) as Hne2.
      { intros ->. destruct l1 as [|d l1]; [done|].
        assert (d ∈ @nil string) as Hd by (apply Hsame; left).
        by apply not_elem_of_nil in Hd. }
      apply eq_true_iff_eq. rewrite !where_filter_selects by done.
      split; intros (d & Hd & Hin); exists d; (split; [done|]);
        by apply Hsame. }
  assert (∀ c, Chroma.nearest (VectorStoreService.space self) q k
                 (VectorStoreService.where_filter (Some l1)) c
               = Chroma.nearest (VectorStoreService.space self) q k
                   (VectorStoreService.where_filter (Some l2)) c) as Hnearest.
  { intros c. unfold Chroma.nearest. do 2 f_equal.
    apply list_filter_iff. intros e. by rewrite Hmatch. }
  unfold VectorStoreService.query, chroma_call, Chroma.query. simpl.
  destruct (VectorStoreService.storage_fault self (calls w)); [done|].
  case_bool_decide; [done|]. simpl.
  destruct (negb _); [done|]. simpl. by rewrite Hnearest.
Qed.

Lemma vector_store_query_ids_as_set_witness :
  let w := Demo.indexed "B" "howdy" None
             (Demo.indexed "A" "a much longer text" None empty_world) in
  (VectorStoreService.query Demo.vector_store [5%Q; 1%Q] 3 (Some ["A"; "A"]) w).1
  = (VectorStoreService.query Demo.vector_store [5%Q; 1%Q] 3 (Some ["A"]) w).1.
Proof.
  intros w. apply vector_store_query_ids_as_set.
  intros d. rewrite !elem_of_cons. tauto.
Defined.

(** ** Indexing, then querying *)

(** After a successful [index_document] (consistent collection, metadata
    without a [document_id] key), a successful query restricted to that
    document returns [min(top_k, n)] sources, [n] being the number of
    chunks indexed: at least one when there is a chunk.  Every source
    names the document and carries one of its chunks. *)
Theorem index_then_query self d content metadata w n w' question k resp w'' :
  consistent (chroma w) →
  or_empty metadata !! "document_id" = None →
  RagService.index_document self d content metadata w = (inr n, w') →
  RagService.query self question (Some [d]) k w' = (inr resp, w'') →
  length (models.sources resp) = Z.to_nat k `min` n
  ∧ (0 < n → models.sources resp ≠ [])
  ∧ ∀ s, s ∈ models.sources resp →
      models.document_id s = d
      ∧ ∃ chunks,
          splitter_split_text
            (EmbeddingService._splitter (RagService._embedding_service self))
            content = inr chunks
          ∧ models.chunk_text s ∈ chunks.
Proof.
  intros Hcons Hkey Hindex Hquery.
  apply reindex_replaces in Hindex as (chunks & Hsplit & -> & Hdocs & _);
    [|done..].
  apply query_inr in Hquery as (q & _ & Hk & Hrep & _).
  assert (filter (λ e, Chroma.where_matches
                         (VectorStoreService.where_filter (Some [d]))
                         (e_metadata e) = true) (c_entries (chroma w'))
          = chunks_of d (chroma w')) as Hfilter.
  { apply list_filter_iff. intros e. simpl. apply bool_decide_eq_true. }
  assert (length (models.sources resp) = Z.to_nat k `min` length chunks)
    as Hlen.
  { rewrite <- (Forall2_length _ _ _ Hrep). unfold Chroma.nearest.
    rewrite length_take, Hfilter. f_equal.
    rewrite (Permutation_length (rank_perm _ _)).
    by rewrite <- Hdocs, length_fmap. }
  split; [done|]. split.
  { intros Hn Hnil. rewrite Hnil in Hlen. simpl in Hlen. lia. }
  intros s [j Hj]%list_elem_of_lookup.
  destruct (Forall2_lookup_r _ _ _ _ _ Hrep Hj) as (e & He & Hd & Htext & _).
  apply list_elem_of_lookup_2, nearest_elem_of in He as [He Hmatch].
  apply bool_decide_eq_true in Hmatch. rewrite Hd in Hmatch.
  injection Hmatch as Hdoc. split; [done|].
  exists chunks. split; [done|]. rewrite Htext, <- Hdocs.
  apply list_elem_of_fmap_2, list_elem_of_filter. split; [|done].
  rewrite Hd. by rewrite Hdoc.
Qed.

Lemma index_then_query_witness :
  let service := Demo.rag_service Demo.client in
  let w := Demo.indexed "B" "howdy" None empty_world in
  ∃ w' resp w'',
    RagService.index_document service "A" "hello world" None w = (inr 1, w')
    ∧ RagService.query service "hello" (Some ["A"]) 3 w' = (inr resp, w'')
    ∧ length (models.sources resp) = 1.
Proof.
  intros service w. eexists _, _, _.
  split; [vm_compute; reflexivity|]. split; [vm_compute; reflexivity|].
  assert (consistent (chroma w)) as Hcons.
  { destruct (reindex_replaces service "B" "howdy" None empty_world 1 w
                consistent_empty eq_refl ltac:(vm_compute; reflexivity))
      as (_ & _ & _ & _ & _ & Hcons).
    exact Hcons. }
  refine (proj1 (index_then_query service "A" "hello world" None w 1
                   (Demo.indexed "A" "hello world" None w)
                   "hello" 3 _ _ Hcons eq_refl _ _));
    vm_compute; reflexivity.
Defined.

(** ** [get_document_ids] *)

Lemma existsb_py_eq_string d (strings : list string) :
  existsb (py_eq (SStr d)) (SStr <$> strings) = bool_decide (d ∈ strings).
Proof.
  induction strings as [|s strings IH]; [done|].
  rewrite fmap_cons. simpl. rewrite IH, <- bool_decide_or.
  apply bool_decide_ext. by rewrite elem_of_cons.
Qed.

(** The comprehension over records that all name a string: the set is
    duplicate-free and holds exactly the names met. *)
Lemma document_id_set_strings (ms : list (gmap string scalar)) :
  (∀ m, m ∈ ms → ∃ d, m !! "document_id" = Some (SStr d)) →
  ∀ strings, NoDup strings →
    ∃ out,
      VectorStoreService.document_id_set ms (SStr <$> strings)
      = inr (SStr <$> out)
      ∧ NoDup out
      ∧ ∀ d, d ∈ out
             ↔ d ∈ strings
               ∨ ∃ m, m ∈ ms ∧ m !! "document_id" = Some (SStr d).
Proof.
  induction ms as [|m ms IH]; intros Hall strings Hnodup; simpl.
  - exists strings. split; [done|]. split; [done|].
    intros d. split; [by left|]. intros [?|(m & Hm & _)]; [done|].
    by apply not_elem_of_nil in Hm.
  - destruct (Hall m) as (d0 & Hd0); [left|].
    rewrite bool_decide_eq_false_2.
    2:{ intros ->. by rewrite lookup_empty in Hd0. }
    rewrite Hd0. unfold py_set_add. rewrite existsb_py_eq_string.
    assert (∀ x, x ∈ ms → ∃ d, x !! "document_id" = Some (SStr d)) as Hall'.
    { intros x Hx. apply Hall. by right. }
    case_bool_decide as Hin.
    + destruct (IH Hall' strings Hnodup) as (out & Hrun & Hout & Hiff).
      exists out. split; [done|]. split; [done|].
      intros d. rewrite Hiff. split.
      * intros [?|(x & Hx & Hd)]; [by left|]. right. exists x.
        split; [by right|done].
      * intros [?|(x & Hx & Hd)]; [by left|].
        apply elem_of_cons in Hx as [->|Hx].
        -- left. rewrite Hd0 in Hd. by injection Hd as <-.
        -- right. by exists x.
    + destruct (IH Hall' (strings ++ [d0])) as (out & Hrun & Hout & Hiff).
      { apply NoDup_app. split; [done|]. split; [|apply NoDup_singleton].
        intros x Hx ->%list_elem_of_singleton. done. }
      exists out. rewrite fmap_app in Hrun. split; [done|]. split; [done|].
      intros d. rewrite Hiff, elem_of_app, list_elem_of_singleton. split.
      * intros [[?| ->]|(x & Hx & Hd)]; [by left| |].
        -- right. exists m. split; [left|done].
        -- right. exists x. split; [by right|done].
      * intros [?|(x & Hx & Hd)]; [by left; left|].
        apply elem_of_cons in Hx as [->|Hx].
        -- left. right. rewrite Hd0 in Hd. by injection Hd as <-.
        -- right. by exists x.
Qed.

(** Whatever the records hold, an element of the set was read from the
    metadata of one of them. *)
Lemma document_id_set_elem_of (ms : list (gmap string scalar)) :
  ∀ acc out, VectorStoreService.document_id_set ms acc = inr out →
    ∀ v, v ∈ out → v ∈ acc ∨ ∃ m, m ∈ ms ∧ m !! "document_id" = Some v.
Proof.
  induction ms as [|m ms IH]; intros acc out; simpl.
  - intros [= <-] v Hv. by left.
  - case_bool_decide.
    + intros Hrun v Hv. destruct (IH _ _ Hrun v Hv) as [?|(x & Hx & Hd)];
        [by left|]. right. exists x. split; [by right|done].
    + destruct (m !! "document_id") as [v0|] eqn:Hm; [|done].
      intros Hrun v Hv. destruct (IH _ _ Hrun v Hv) as [Hacc|(x & Hx & Hd)].
      * unfold py_set_add in Hacc. destruct (existsb _ _); [by left|].
        apply elem_of_app in Hacc as [?| ->%list_elem_of_singleton];
          [by left|].
        right. exists m. split; [left|done].
      * right. exists x. split; [by right|done].
Qed.

Lemma py_sorted_perm s l : py_sorted s = inr l → l ≡ₚ s.
Proof.
  unfold py_sorted.
  destruct (mapM scalar_string s) as [strings|] eqn:Hstrings.
  - intros [= <-]. rewrite merge_sort_Permutation.
    erewrite (mapM_fmap_Some_inv scalar_string SStr); [done..|].
    intros [] y; simpl; congruence.
  - destruct (mapM scalar_number s); [|done].
    intros [= <-]. apply merge_sort_Permutation.
Qed.

Lemma get_document_ids_run self w :
  VectorStoreService.storage_fault self (calls w) = None →
  VectorStoreService.get_document_ids self w
  = (match VectorStoreService.document_id_set
             (e_metadata <$> c_entries (chroma w)) [] with
     | inl e => inl (Raised e)
     | inr doc_ids =>
         match py_sorted doc_ids with
         | inl msg => inl (TypeError msg)
         | inr ids => inr ids
         end
     end,
     World (chroma w) (calls w ++ [ChromaGet None])).
Proof.
  intros Hfault. unfold VectorStoreService.get_document_ids, chroma_call.
  rewrite Hfault. simpl.
  destruct (VectorStoreService.document_id_set _ _); [done|].
  by destruct (py_sorted _).
Qed.

(** When the storage answers and every record names its document by a
    string, [get_document_ids] returns, in ascending order and without
    repetition, exactly the ids of the documents that have a chunk; it
    makes one call and leaves the collection as it is. *)
Theorem get_document_ids_spec self w :
  VectorStoreService.storage_fault self (calls w) = None →
  string_document_ids (chroma w) →
  ∃ ids,
    VectorStoreService.get_document_ids self w
    = (inr (SStr <$> ids), World (chroma w) (calls w ++ [ChromaGet None]))
    ∧ Sorted String.le ids
    ∧ NoDup ids
    ∧ ∀ d, d ∈ ids ↔ chunks_of d (chroma w) ≠ [].
Proof.
  intros Hfault Hstrings. rewrite get_document_ids_run by done.
  destruct (document_id_set_strings (e_metadata <$> c_entries (chroma w)))
    with (strings := @nil string) as (out & Hrun & Hnodup & Hiff).
  { intros m (e & -> & He)%list_elem_of_fmap. by apply Hstrings. }
  { constructor. }
  simpl in Hrun. rewrite Hrun. unfold py_sorted.
  rewrite (mapM_fmap_Some scalar_string SStr) by done.
  exists (merge_sort String.le out). split; [done|].
  split; [apply (Sorted_merge_sort _)|].
  split; [by rewrite merge_sort_Permutation|].
  intros d. rewrite merge_sort_Permutation, Hiff. split.
  - intros [Hnil|(m & (e & -> & He)%list_elem_of_fmap & Hd)].
    { by apply not_elem_of_nil in Hnil. }
    intros Hnone. assert (e ∈ chunks_of d (chroma w)) as Hin
      by (by apply list_elem_of_filter).
    rewrite Hnone in Hin. by apply not_elem_of_nil in Hin.
  - intros Hsome. right.
    destruct (chunks_of d (chroma w)) as [|e l] eqn:Hchunks; [done|].
    assert (e ∈ chunks_of d (chroma w)) as Hin by (rewrite Hchunks; left).
    apply list_elem_of_filter in Hin as [Hd He].
    exists (e_metadata e). split; [by apply list_elem_of_fmap_2|done].
Qed.

Lemma get_document_ids_spec_witness :
  let w := Demo.indexed "A" "second" None
             (Demo.indexed "A" "first" None
                (Demo.indexed "B" "howdy" None empty_world)) in
  (VectorStoreService.get_document_ids Demo.vector_store w).1
  = inr [SStr "A"; SStr "B"]
  ∧ ∃ ids,
      (VectorStoreService.get_document_ids Demo.vector_store w).1
      = inr (SStr <$> ids)
      ∧ NoDup ids ∧ "A" ∈ ids ∧ "C" ∉ ids.
Proof.
  intros w. split; [vm_compute; reflexivity|].
  assert (string_document_ids (chroma w)) as Hstrings.
  { intros e He. vm_compute in He.
    repeat (apply elem_of_cons in He as [->|He]; [by eexists|]).
    by apply not_elem_of_nil in He. }
  destruct (get_document_ids_spec Demo.vector_store w eq_refl Hstrings)
    as (ids & Hrun & _ & Hnodup & Hiff).
  exists ids. split; [by rewrite Hrun|]. split; [done|]. split.
  - apply Hiff. vm_compute. discriminate.
  - rewrite Hiff. intros Hne. apply Hne. vm_compute. reflexivity.
Defined.

Lemma py_eq_refl v : py_eq v v = true.
Proof. destruct v; simpl; by apply bool_decide_eq_true. Qed.

Lemma py_set_add_subseteq s v x : x ∈ s → x ∈ py_set_add s v.
Proof.
  unfold py_set_add. destruct (existsb _ _); [done|].
  intros Hx. apply elem_of_app. by left.
Qed.

Lemma py_set_add_holds s v : ∃ v', v' ∈ py_set_add s v ∧ py_eq v v' = true.
Proof.
  unfold py_set_add. destruct (existsb (py_eq v) s) eqn:Hex.
  - apply existsb_exists in Hex as (v' & Hin & Heq).
    exists v'. split; [by apply list_elem_of_In|done].
  - exists v. split; [|apply py_eq_refl].
    apply elem_of_app. right. left.
Qed.

(** When every record has a [document_id], the comprehension succeeds and
    the set holds a value equal to each one met. *)
Lemma document_id_set_holds (ms : list (gmap string scalar)) :
  (∀ m, m ∈ ms → is_Some (m !! "document_id")) →
  ∀ acc, ∃ out,
    VectorStoreService.document_id_set ms acc = inr out
    ∧ (∀ x, x ∈ acc → x ∈ out)
    ∧ ∀ m v, m ∈ ms → m !! "document_id" = Some v →
        ∃ v', v' ∈ out ∧ py_eq v v' = true.
Proof.
  induction ms as [|m ms IH]; intros Hall acc; simpl.
  - exists acc. split; [done|]. split; [done|].
    intros m v Hm. by apply not_elem_of_nil in Hm.
  - destruct (Hall m) as (v0 & Hv0); [left|].
    rewrite bool_decide_eq_false_2.
    2:{ intros ->. by rewrite lookup_empty in Hv0. }
    rewrite Hv0.
    destruct (IH (λ x Hx, Hall x (list_elem_of_further _ _ _ Hx))
                (py_set_add acc v0)) as (out & Hrun & Hsub & Hmet).
    exists out. split; [done|]. split.
    + intros x Hx. by apply Hsub, py_set_add_subseteq.
    + intros x v [->|Hx]%elem_of_cons Hv.
      * rewrite Hv0 in Hv. injection Hv as <-.
        destruct (py_set_add_holds acc v0) as (v' & Hin & Heq).
        exists v'. split; [by apply Hsub|done].
      * by apply (Hmet x).
Qed.

(** When one record names its document by a string and another by a
    number (a caller's metadata replaced the derived [document_id]),
    [get_document_ids] raises the [TypeError] of [sorted]. *)
Theorem get_document_ids_mixed_types self w e1 e2 d v :
  VectorStoreService.storage_fault self (calls w) = None →
  (∀ e, e ∈ c_entries (chroma w) → is_Some (e_metadata e !! "document_id")) →
  e1 ∈ c_entries (chroma w) →
  e2 ∈ c_entries (chroma w) →
  e_metadata e1 !! "document_id" = Some (SStr d) →
  e_metadata e2 !! "document_id" = Some v →
  scalar_string v = None →
  ∃ msg,
    VectorStoreService.get_document_ids self w
    = (inl (TypeError msg), World (chroma w) (calls w ++ [ChromaGet None])).
Proof.
  intros Hfault Hall He1 He2 Hd Hv Hnumber.
  rewrite get_document_ids_run by done.
  destruct (document_id_set_holds (e_metadata <$> c_entries (chroma w)))
    with (acc := @nil scalar) as (out & Hrun & _ & Hmet).
  { intros m (e & -> & He)%list_elem_of_fmap. by apply Hall. }
  rewrite Hrun.
  destruct (Hmet (e_metadata e1) (SStr d)) as (v1 & Hin1 & Heq1);
    [by apply list_elem_of_fmap_2|done|].
  destruct (Hmet (e_metadata e2) v) as (v2 & Hin2 & Heq2);
    [by apply list_elem_of_fmap_2|done|].
  assert (scalar_number v1 = None) as Hv1 by (by destruct v1).
  assert (scalar_string v2 = None) as Hv2 by (by destruct v, v2).
  unfold py_sorted.
  assert (mapM scalar_string out = None) as ->.
  { apply mapM_None, Exists_exists. by exists v2. }
  assert (mapM scalar_number out = None) as ->.
  { apply mapM_None, Exists_exists. by exists v1. }
  by eexists.
Qed.

Lemma get_document_ids_mixed_types_witness :
  let w := Demo.indexed "B" "howdy" (Some {[ "document_id" := SInt 7 ]})
             (Demo.indexed "A" "first" None empty_world) in
  ∃ msg,
    (VectorStoreService.get_document_ids Demo.vector_store w).1
    = inl (TypeError msg).
Proof.
  intros w.
  destruct (get_document_ids_mixed_types Demo.vector_store w
              (Entry "A_chunk_0" [5%Q; 1%Q] "first" (chunk_metadata "A" 0 None))
              (Entry "B_chunk_0" [5%Q; 1%Q] "howdy"
                 (chunk_metadata "B" 0 (Some {[ "document_id" := SInt 7 ]})))
              "A" (SInt 7)) as (msg & Hrun); try reflexivity.
  - intros e He. vm_compute in He.
    repeat (apply elem_of_cons in He as [->|He]; [by eexists|]).
    by apply not_elem_of_nil in He.
  - vm_compute. left.
  - vm_compute. right. left.
  - exists msg. by rewrite Hrun.
Defined.

(** ** The endpoints *)

(** The three endpoints that use the RAG service fail in three ways only:
    a validation error or a 503 (service not initialized), each with
    nothing done and nothing sent, or a 500 wrapping whatever the service
    raised.  No other exception reaches the caller. *)
Theorem post_endpoints_failures g w e w' :
  (∀ body, rag_router.index_document g body w = (inl e, w') →
           endpoint_failure g e w w')
  ∧ (∀ body, rag_router.query_documents g body w = (inl e, w') →
             endpoint_failure g e w w')
  ∧ (∀ body, rag_router.delete_document g body w = (inl e, w') →
             endpoint_failure g e w w').
Proof.
  unfold endpoint_failure.
  split; [|split]; intros body;
    [unfold rag_router.index_document
    |unfold rag_router.query_documents
    |unfold rag_router.delete_document];
    rewrite M_bind_run; unfold lift.
  - destruct (models.IndexRequest_validate body) as [e0|request] eqn:Hvalid.
    { intros [= <- <-]. left. unfold models.IndexRequest_validate in Hvalid.
      repeat case_match; simplify_eq; by eexists. }
    rewrite M_bind_run. unfold rag_router._get_rag_service.
    destruct (rag_router._rag_service g) as [service|];
      [|intros [= <- <-]; right; left; done].
    unfold mret at 1, M_ret at 1, try_except.
    destruct (@mbind M _ _ _ _ _ w) as [[e0|r] w0]; [|done].
    intros [= <- <-]. right. right. by eexists.
  - destruct (models.QueryRequest_validate body) as [e0|request] eqn:Hvalid.
    { intros [= <- <-]. left. unfold models.QueryRequest_validate in Hvalid.
      repeat case_match; simplify_eq; by eexists. }
    rewrite M_bind_run. unfold rag_router._get_rag_service.
    destruct (rag_router._rag_service g) as [service|];
      [|intros [= <- <-]; right; left; done].
    unfold mret at 1, M_ret at 1, try_except.
    destruct (RagService.query _ _ _ _ w) as [[e0|r] w0]; [|done].
    intros [= <- <-]. right. right. by eexists.
  - destruct (models.DeleteRequest_validate body) as [e0|document_id] eqn:Hvalid.
    { intros [= <- <-]. left. unfold models.DeleteRequest_validate in Hvalid.
      repeat case_match; simplify_eq; by eexists. }
    rewrite M_bind_run. unfold rag_router._get_rag_service.
    destruct (rag_router._rag_service g) as [service|];
      [|intros [= <- <-]; right; left; done].
    unfold mret at 1, M_ret at 1, try_except.
    destruct (@mbind M _ _ _ _ _ w) as [[e0|r] w0]; [|done].
    intros [= <- <-]. right. right. by eexists.
Qed.

Lemma post_endpoints_failures_witness :
  let g := Demo.router Demo.client_down in
  let body := {| models.body_question := Some "hello";
                 models.body_document_ids := None;
                 models.body_top_k := None |} in
  ∃ e w',
    rag_router.query_documents g body empty_world = (inl e, w')
    ∧ endpoint_failure g e empty_world w'
    ∧ ∃ detail, e = HTTPException 500 detail.
Proof.
  intros g body. eexists _, _. split; [vm_compute; reflexivity|].
  split; [|by eexists].
  apply (proj1 (proj2 (post_endpoints_failures g empty_world _ _)) body).
  vm_compute; reflexivity.
Defined.

(** [POST /delete] answers with the number of chunks the document had;
    the message says so, or that there were none (which is a success);
    afterwards the document has no chunk. *)
Theorem delete_endpoint_spec g body w r w' :
  rag_router.delete_document g body w = (inr r, w') →
  ∃ d,
    models.delete_document_id body = Some d
    ∧ models.DeleteResponse.document_id r = d
    ∧ models.DeleteResponse.chunks_deleted r
      = length (chunks_of d (chroma w))
    ∧ models.DeleteResponse.message r
      = (if bool_decide (chunks_of d (chroma w) = [])
         then "No chunks found for this document"
         else "Deleted " +:+ pretty (length (chunks_of d (chroma w)))
              +:+ " chunks")
    ∧ chunks_of d (chroma w') = [].
Proof.
  unfold rag_router.delete_document. rewrite M_bind_run. unfold lift.
  unfold models.DeleteRequest_validate.
  destruct (models.delete_document_id body) as [d|]; [|done].
  rewrite M_bind_run. unfold rag_router._get_rag_service.
  destruct (rag_router._rag_service g) as [service|]; [|done].
  unfold mret at 1, M_ret at 1, try_except. rewrite M_bind_run.
  unfold RagService.delete_document.
  destruct (VectorStoreService.delete_document _ d w) as [[|n] w1] eqn:Hdel;
    [done|].
  intros [= <- <-]. apply delete_document_inr in Hdel as [-> Hnone].
  exists d. simpl. repeat split; try done.
  by destruct (chunks_of d (chroma w)).
Qed.

Lemma delete_endpoint_spec_witness :
  let w := Demo.indexed "A" "a much longer text" None empty_world in
  let body d := {| models.delete_document_id := Some d |} in
  ∃ r w' r2 w2,
    rag_router.delete_document (Demo.router Demo.client) (body "A") w
    = (inr r, w')
    ∧ models.DeleteResponse.message r = "Deleted 1 chunks"
    ∧ rag_router.delete_document (Demo.router Demo.client) (body "A") w'
      = (inr r2, w2)
    ∧ models.DeleteResponse.message r2 = "No chunks found for this document".
Proof.
  intros w body. eexists _, _, _, _.
  split; [vm_compute; reflexivity|].
  split.
  { destruct (delete_endpoint_spec (Demo.router Demo.client) (body "A") w _ _
                ltac:(vm_compute; reflexivity)) as (d & Hd & _ & _ & Hmsg & _).
    rewrite Hmsg. injection Hd as <-. vm_compute. reflexivity. }
  split; vm_compute; reflexivity.
Defined.

(** [POST /index] stores the request's [filename] in the metadata of
    every chunk, unless the request's own metadata has a ["filename"]
    key, which then wins.  (Consistent collection, request metadata
    without a [document_id] key.) *)
Theorem index_endpoint_filename g body w r w' :
  consistent (chroma w) →
  or_empty (models.body_metadata body) !! "document_id" = None →
  rag_router.index_document g body w = (inr r, w') →
  ∃ d filename,
    models.body_document_id body = Some d
    ∧ models.body_filename body = Some filename
    ∧ models.IndexResponse.document_id r = d
    ∧ models.IndexResponse.chunks_indexed r
      = length (chunks_of d (chroma w'))
    ∧ ∀ e, e ∈ chunks_of d (chroma w') →
        e_metadata e !! "filename"
        = Some (default (SStr filename)
                  (or_empty (models.body_metadata body) !! "filename")).
Proof.
  intros Hcons Hkey. unfold rag_router.index_document.
  rewrite M_bind_run. unfold lift, models.IndexRequest_validate.
  destruct (models.body_document_id body) as [d|]; [|done].
  destruct (models.body_content body) as [content|]; [|done].
  destruct (models.body_filename body) as [filename|]; [|done].
  case_bool_decide; [done|].
  rewrite M_bind_run. unfold rag_router._get_rag_service.
  destruct (rag_router._rag_service g) as [service|]; [|done].
  unfold mret at 1, M_ret at 1, try_except. rewrite M_bind_run. simpl.
  set (metadata := Some (dict_update {[ "filename" := SStr filename ]}
                           (or_empty (models.body_metadata body)))).
  destruct (RagService.index_document service d content metadata w)
    as [[|n] w1] eqn:Hindex; [done|].
  intros [= <- <-]. exists d, filename. simpl.
  split; [done|]. split; [done|]. split; [done|].
  assert (or_empty metadata !! "document_id" = None) as Hkey2.
  { unfold metadata, dict_update. simpl.
    apply lookup_union_None. split; [done|]. by rewrite lookup_singleton_ne. }
  destruct (index_document_entries _ _ _ _ _ _ _ Hcons Hkey2 Hindex)
    as (n0 & w0 & chunks & embeddings & _ & _ & -> & Hlen & _ & Hentries).
  destruct (new_entries_spec d metadata chunks embeddings Hlen)
    as (Hdocs & _ & Hnew).
  rewrite Hentries. split.
  { rewrite <- (length_fmap e_document). by rewrite Hdocs. }
  intros e He. destruct (Hnew e He) as (i & _ & ->).
  unfold chunk_metadata, dict_update at 1. simpl.
  unfold metadata, dict_update, or_empty. simpl.
  destruct (default ∅ (models.body_metadata body) !! "filename") as [v|] eqn:Hv.
  - simpl. rewrite <- (assoc_L (∪)). by apply lookup_union_Some_l.
  - simpl. rewrite <- (assoc_L (∪)). rewrite lookup_union_r by done.
    apply lookup_union_Some_l. by rewrite lookup_singleton_eq.
Qed.

Lemma index_endpoint_filename_witness :
  let body md := {| models.body_document_id := Some "A";
                    models.body_content := Some "hello";
                    models.body_filename := Some "a.txt";
                    models.body_metadata := md |} in
  let stored md :=
    (λ e, e_metadata e !! "filename")
      <$> chunks_of "A"
            (chroma (rag_router.index_document (Demo.router Demo.client)
                       (body md) empty_world).2) in
  stored None = [Some (SStr "a.txt")]
  ∧ stored (Some {[ "filename" := SStr "b.txt" ]}) = [Some (SStr "b.txt")].
Proof.
  intros body stored. split; [|vm_compute; reflexivity].
  destruct (index_endpoint_filename (Demo.router Demo.client) (body None)
              empty_world _ _ consistent_empty eq_refl
              ltac:(vm_compute; reflexivity))
    as (d & filename & Hd & Hf & _ & _ & Hall).
  injection Hd as <-. injection Hf as <-.
  unfold stored.
  destruct (chunks_of "A" _) as [|e [|e2 l]] eqn:Hchunks;
    [by vm_compute in Hchunks| |by vm_compute in Hchunks].
  simpl. f_equal. apply Hall. left.
Defined.

(** What a successful [GET /documents] returns: the strings
    [get_document_ids] read from the metadata of the records. *)
Lemma list_documents_inr g w ids w' :
  rag_router.list_documents g w = (inr ids, w') →
  ∃ doc_ids,
    VectorStoreService.document_id_set
      (e_metadata <$> c_entries (chroma w)) [] = inr doc_ids
    ∧ SStr <$> ids ≡ₚ doc_ids
    ∧ chroma w' = chroma w.
Proof.
  unfold rag_router.list_documents.
  destruct (rag_router._vector_store g) as [vs|]; [|done].
  rewrite M_bind_run.
  unfold VectorStoreService.get_document_ids, chroma_call.
  destruct (VectorStoreService.storage_fault vs (calls w)); [done|]. simpl.
  destruct (VectorStoreService.document_id_set _ _) as [|doc_ids]; [done|].
  destruct (py_sorted doc_ids) as [|l] eqn:Hsorted; [done|].
  unfold lift, models.list_str_validate.
  destruct (mapM scalar_string l) as [strings|] eqn:Hstrings; [|done].
  intros [= <- <-]. exists doc_ids. split; [done|]. split; [|done].
  apply py_sorted_perm in Hsorted. rewrite <- Hsorted.
  assert (SStr <$> strings = l) as ->; [|done].
  apply (mapM_fmap_Some_inv scalar_string SStr); [done|].
  intros [] y; simpl; congruence.
Qed.

(** Once [delete_document] has succeeded, [GET /documents] no longer
    lists the document. *)
Theorem deleted_document_not_listed self d w n w1 g ids w2 :
  VectorStoreService.delete_document self d w = (inr n, w1) →
  rag_router.list_documents g w1 = (inr ids, w2) →
  d ∉ ids.
Proof.
  intros Hdel Hlist Hin.
  apply delete_document_inr in Hdel as [_ Hnone].
  apply list_documents_inr in Hlist as (doc_ids & Hset & Hperm & _).
  assert (SStr d ∈ doc_ids) as Hd.
  { rewrite <- Hperm. by apply list_elem_of_fmap_2. }
  destruct (document_id_set_elem_of _ _ _ Hset _ Hd)
    as [Hnil|(m & (e & -> & He)%list_elem_of_fmap & Hm)].
  { by apply not_elem_of_nil in Hnil. }
  assert (e ∈ chunks_of d (chroma w1)) as Hchunk
    by (by apply list_elem_of_filter).
  rewrite Hnone in Hchunk. by apply not_elem_of_nil in Hchunk.
Qed.

Lemma deleted_document_not_listed_witness :
  let g := Demo.router Demo.client in
  let w := Demo.indexed "B" "howdy" None
             (Demo.indexed "A" "a much longer text" None empty_world) in
  let w1 := (VectorStoreService.delete_document Demo.vector_store "A" w).2 in
  (rag_router.list_documents g w).1 = inr ["A"; "B"]
  ∧ ∃ ids w2, rag_router.list_documents g w1 = (inr ids, w2) ∧ "A" ∉ ids.
Proof.
  intros g w w1. split; [vm_compute; reflexivity|].
  eexists _, _. split; [vm_compute; reflexivity|].
  refine (deleted_document_not_listed Demo.vector_store "A" w 1 w1 g _ _ _ _);
    vm_compute; reflexivity.
Defined.

(** After a successful [index_document] that stored at least one chunk
    (consistent collection, metadata without a [document_id] key), a
    successful [GET /documents] lists the document. *)
Theorem indexed_document_listed self d content metadata w n w' g ids w'' :
  consistent (chroma w) →
  or_empty metadata !! "document_id" = None →
  RagService.index_document self d content metadata w = (inr n, w') →
  0 < n →
  rag_router.list_documents g w' = (inr ids, w'') →
  d ∈ ids.
Proof.
  intros Hcons Hkey Hindex Hn Hlist.
  apply reindex_replaces in Hindex
    as (chunks & _ & -> & Hdocs & _ & Hcons'); [|done..].
  destruct (chunks_of d (chroma w')) as [|e l] eqn:Hchunks.
  { subst chunks. simpl in Hn. lia. }
  assert (e ∈ chunks_of d (chroma w')) as He by (rewrite Hchunks; left).
  apply list_elem_of_filter in He as [Hd He].
  apply list_documents_inr in Hlist as (doc_ids & Hset & Hperm & _).
  destruct (document_id_set_holds (e_metadata <$> c_entries (chroma w')))
    with (acc := @nil scalar) as (out & Hrun & _ & Hmet).
  { intros m (x & -> & Hx)%list_elem_of_fmap.
    destruct (Hcons' x Hx) as (dx & _ & _ & Hdx). by eexists. }
  rewrite Hset in Hrun. injection Hrun as <-.
  destruct (Hmet (e_metadata e) (SStr d)) as (v & Hv & Heq);
    [by apply list_elem_of_fmap_2|done|].
  destruct v as [s| |]; try done. simpl in Heq.
  apply bool_decide_eq_true in Heq as <-.
  rewrite <- Hperm in Hv.
  apply list_elem_of_fmap in Hv as (x & [= ->] & Hx). done.
Qed.

Lemma indexed_document_listed_witness :
  let service := Demo.rag_service Demo.client in
  ∃ w' ids w'',
    RagService.index_document service "A" "hello" None empty_world
    = (inr 1, w')
    ∧ rag_router.list_documents (Demo.router Demo.client) w' = (inr ids, w'')
    ∧ "A" ∈ ids.
Proof.
  intros service. eexists _, _, _.
  split; [vm_compute; reflexivity|]. split; [vm_compute; reflexivity|].
  refine (indexed_document_listed service "A" "hello" None empty_world 1 _
            (Demo.router Demo.client) _ _ consistent_empty eq_refl _ _ _);
    [vm_compute; reflexivity | lia | vm_compute; reflexivity].
Defined.
